(** * taro-react-virtual-list: the windowing engine

    A shallow embedding of the segmenter ([getSegmentList], utils/virtualList)
    and of the hook [useVirtualList] (hooks/useVirtualList.ts): the segment
    table, the per-page records, the render list, the position calculator,
    the navigator and the installation of intersection observers.

    JavaScript numbers are modelled as integers ([Z]): indices, lengths and
    pixel heights.  [x || y] on numbers picks [y] when [x] is [0]. *)

From Stdlib Require Import ZArith QArith Lia List.
From stdpp Require Import base numbers option list gmap.

#[local] Set Warnings "-clear-no-such-hyp".

Local Open Scope Z_scope.

(** ** JavaScript primitives used by the source *)

(** [a || b] on numbers: [0] is the falsy number. *)
Definition js_or (a b : Z) : Z := if a =? 0 then b else a.

(** [m.get(k)?.height || b] and the like: an absent record is falsy as well. *)
Definition js_or_opt (a : option Z) (b : Z) : Z :=
  match a with
  | Some x => js_or x b
  | None => b
  end.

(** [arr[i]] for an integer [i]: [undefined] out of range. *)
Definition js_nth {A} (arr : list A) (i : Z) : option A :=
  if i <? 0 then None else arr !! Z.to_nat i.

(** [arr.length]. *)
Definition js_length {A} (arr : list A) : Z := Z.of_nat (length arr).

(** [Array.prototype.slice(start, end)]: negative arguments count from the
    end, both are clamped to the array, an empty range gives []. *)
Definition slice {A} (arr : list A) (start end_ : Z) : list A :=
  let len := js_length arr in
  let k := if start <? 0 then Z.max (len + start) 0 else Z.min start len in
  let final := if end_ <? 0 then Z.max (len + end_) 0 else Z.min end_ len in
  take (Z.to_nat (final - k)) (drop (Z.to_nat k) arr).

(** [Math.ceil(a / b)] for integers [a], [b] with [b > 0]. *)
Definition ceil_div (a b : Z) : Z := - ((- a) / b).

(** [arr.reduce((sum, h) => sum + h, 0)]. *)
Definition sum_heights (arr : list Z) : Z := fold_left Z.add arr 0.

(** ** Segmenter (utils/virtualList: getSegmentList) *)

Definition getSegmentList {A} (lst : list A) (segmentNum : Z) : list (list A) :=
  if js_length lst =? 0 then []
  else if segmentNum <=? 0 then [lst]
  else
    let totalPages := ceil_div (js_length lst) segmentNum in
    (fun i =>
       let start := i * segmentNum in
       let end_ := Z.min (start + segmentNum) (js_length lst) in
       slice lst start end_) <$> seqZ 0 totalPages.

(** [segmentNum: number | 'smart'] *)
Inductive SegmentNumType : Type :=
  | Smart
  | Num (n : Z).

(** The [num] of [createSegmentList]:
    [segmentNum === 'smart' ? Math.max(10, Math.floor(Math.sqrt(list.length))) : segmentNum]. *)
Definition resolveSegmentNum {A} (lst : list A) (segmentNum : SegmentNumType) : Z :=
  match segmentNum with
  | Smart => Z.max 10 (Z.sqrt (js_length lst))
  | Num n => n
  end.

(** [createSegmentList]: the value stored in [segmentListRef.current];
    [getSegmentNum] is the (overridable) segmenter. *)
Definition createSegmentList {A} (getSegmentNum : list A → Z → list (list A))
    (lst : list A) (segmentNum : SegmentNumType) : list (list A) :=
  getSegmentNum lst (resolveSegmentNum lst segmentNum).

(** ** Data model (types.ts) *)

(** [IItemScrollTop] *)
Module IItemScrollTop.
Record t : Type := mk {
  height : Z;
  scrollTop : Z;
  rendered : bool;
  pageIndex : Z
}.
End IItemScrollTop.

(** [ISubPage]: the per-page record kept in [subPageMapRef]. *)
Module ISubPage.
Record t : Type := mk {
  rendered : bool;
  height : Z;
  length : Z;
  items : list Z
}.
End ISubPage.

(** [PageInfo]: the answer of [queryUtils.getPageInfo]; [items] holds the
    [height] of every measured item. *)
Module PageInfo.
Record t : Type := mk {
  height : Z;
  items : list Z
}.
End PageInfo.

(** [VirtualListSegment<T> = T[] | { height: number }]: a page that shows
    its items ([Array.isArray(page)]), or a placeholder of some height. *)
Inductive VirtualListSegment (A : Type) : Type :=
  | Items (content : list A)
  | Placeholder (height : Z).
Arguments Items {A} content.
Arguments Placeholder {A} height.

(** A [Taro.IntersectionObserver], identified by the margins it was created
    with ([relativeToViewport({ top, bottom })]). *)
Record IntersectionObserver : Type := mkObserver {
  marginTop : Z;
  marginBottom : Z
}.

(** The state of one [useVirtualList] instance: the React state
    ([renderList], [isCompleted]), the refs and the options read by the
    operations below. *)
Record Engine (A : Type) : Type := mkEngine {
  renderList : list (VirtualListSegment A);
  isCompleted : bool;
  segmentListRef : list (list A);
  subPageMapRef : gmap Z ISubPage.t;
  observersRef : gmap Z IntersectionObserver;
  observerCreatingRef : gset Z;
  viewHeightRef : Z;
  headerHeightRef : Z;
  guessItemHeight : Z;
  screenNum : Z;
  windowHeight : Z
}.
Arguments mkEngine {A}.
Arguments renderList {A}.
Arguments isCompleted {A}.
Arguments segmentListRef {A}.
Arguments subPageMapRef {A}.
Arguments observersRef {A}.
Arguments observerCreatingRef {A}.
Arguments viewHeightRef {A}.
Arguments headerHeightRef {A}.
Arguments guessItemHeight {A}.
Arguments screenNum {A}.
Arguments windowHeight {A}.

Definition set_renderList {A} (e : Engine A) (rl : list (VirtualListSegment A)) : Engine A :=
  mkEngine rl (isCompleted e) (segmentListRef e) (subPageMapRef e) (observersRef e)
    (observerCreatingRef e) (viewHeightRef e) (headerHeightRef e) (guessItemHeight e)
    (screenNum e) (windowHeight e).

Definition set_subPageMap {A} (e : Engine A) (m : gmap Z ISubPage.t) : Engine A :=
  mkEngine (renderList e) (isCompleted e) (segmentListRef e) m (observersRef e)
    (observerCreatingRef e) (viewHeightRef e) (headerHeightRef e) (guessItemHeight e)
    (screenNum e) (windowHeight e).

Definition set_observers {A} (e : Engine A) (m : gmap Z IntersectionObserver)
    (c : gset Z) : Engine A :=
  mkEngine (renderList e) (isCompleted e) (segmentListRef e) (subPageMapRef e) m
    c (viewHeightRef e) (headerHeightRef e) (guessItemHeight e)
    (screenNum e) (windowHeight e).

(** ** Position calculator (useVirtualList: getItemScrollTop) *)

Section Locate.
Context {A : Type}.
Variable e : Engine A.

(** What a page that lies before the target adds to [scrollTop]
    (lines 391-399): a rendered page its record height, or the guess when
    there is none; a placeholder its own height. *)
Definition pageHeight (pageIdx : nat) (page : VirtualListSegment A) (pageLength : Z) : Z :=
  match page with
  | Items _ =>
      js_or_opt (ISubPage.height <$> subPageMapRef e !! Z.of_nat pageIdx)
                (pageLength * guessItemHeight e)
  | Placeholder h => h
  end.

(** The page that holds the target (lines 403-423): the item's [height],
    what is added to [scrollTop], and [rendered]. *)
Definition locateInPage (pageIdx : nat) (page : VirtualListSegment A) (pos : Z)
    : Z * Z * bool :=
  let guess := guessItemHeight e in
  match page with
  | Items _ =>
      match subPageMapRef e !! Z.of_nat pageIdx with
      | Some pageData =>
          if js_length (ISubPage.items pageData) >? pos then
            (js_or_opt (js_nth (ISubPage.items pageData) pos) guess,
             sum_heights (slice (ISubPage.items pageData) 0 pos),
             true)
          else (guess, guess * pos, true)
      | None => (guess, guess * pos, true)
      end
  | Placeholder _ => (guess, guess * pos, false)
  end.

(** The [for] loop over [currentRenderList], from page [pageIdx] on; the
    result is [(height, scrollTop, rendered, segIdx)] when the loop ends. *)
Fixpoint scrollTopLoop (index : Z) (pages : list (VirtualListSegment A)) (pageIdx : nat)
    (scrollTop curIdx segIdx : Z) : Z * Z * bool * Z :=
  match pages with
  | [] => (0, scrollTop, false, segIdx)
  | page :: rest =>
      match segmentListRef e !! pageIdx with
      | None => (0, scrollTop, false, segIdx)
      | Some segmentData =>
          let pageLength := js_length segmentData in
          if curIdx + pageLength - 1 <? index then
            scrollTopLoop index rest (S pageIdx)
              (scrollTop + pageHeight pageIdx page pageLength)
              (curIdx + pageLength) (segIdx + 1)
          else
            let pos := index - curIdx in
            let '(height, added, rendered) := locateInPage pageIdx page pos in
            (height, scrollTop + added, rendered, segIdx)
      end
  end.

Definition getItemScrollTop (index : Z) : IItemScrollTop.t :=
  if index <? 0 then IItemScrollTop.mk 0 0 false 0
  else
    let '(height, scrollTop, rendered, segIdx) :=
      scrollTopLoop index (renderList e) 0%nat (headerHeightRef e) 0 0 in
    IItemScrollTop.mk height scrollTop rendered
      (Z.min segIdx (js_length (renderList e) - 1)).

End Locate.

(** ** Segment State Store and Visibility Controller: the updates of
    [renderList] and [subPageMapRef] *)

(** The answer handed to the observer callback: [res.intersectionRatio], a
    fraction, and the size of [res.intersectionRect]. *)
Record IntersectionResult : Type := mkResult {
  intersectionRatio : Q;
  rectHeight : Z;
  rectWidth : Z
}.

(** [INTERSECTION_THRESHOLD = 0.001] *)
Definition INTERSECTION_THRESHOLD : Q := (1 # 1000)%Q.

(** [res?.intersectionRect?.height && res?.intersectionRect?.width], as a
    truth value. *)
Definition isIntersecting (res : option IntersectionResult) : bool :=
  match res with
  | Some r => negb (rectHeight r =? 0) && negb (rectWidth r =? 0)
  | None => false
  end.

(** [res?.intersectionRatio || 0] *)
Definition ratioOf (res : option IntersectionResult) : Q :=
  match res with
  | Some r => intersectionRatio r
  | None => 0%Q
  end.

(** [newList[index] = v] on a copy of the array.  Inside the array the entry
    is replaced, at its end the array grows by one, a negative index leaves
    the entries as they are.  Past the end JavaScript would leave holes
    ([undefined] entries), which [VirtualListSegment<T>[]] does not have:
    [None]. *)
Definition js_set {A} (arr : list A) (i : Z) (v : A) : option (list A) :=
  if i <? 0 then Some arr
  else if i <? js_length arr then Some (<[Z.to_nat i := v]> arr)
  else if i =? js_length arr then Some (arr ++ [v])
  else None.

Section Updates.
Context {A : Type}.

(** [subPageMapRef.current.get(index)?.height ||
     guessItemHeight * (segmentListRef.current[index]?.length || 0)]
    (lines 215-217): the height a placeholder takes. *)
Definition currentHeight (e : Engine A) (index : Z) : Z :=
  js_or_opt (ISubPage.height <$> subPageMapRef e !! index)
    (guessItemHeight e * js_or_opt (js_length <$> js_nth (segmentListRef e) index) 0).

(** Leaving the viewport (lines 211-223): a page that shows its items is
    replaced by a placeholder. *)
Definition hidePage (e : Engine A) (index : Z) : Engine A :=
  match js_nth (renderList e) index with
  | Some (Items _) =>
      set_renderList e
        (<[Z.to_nat index := Placeholder (currentHeight e index)]> (renderList e))
  | _ => e
  end.

(** Entering the viewport (lines 226-235): a page that does not show its
    items gets them from the segment table. *)
Definition showPage (e : Engine A) (index : Z) : option (Engine A) :=
  match js_nth (renderList e) index with
  | Some (Items _) => Some e
  | _ =>
      set_renderList e <$>
        js_set (renderList e) index (Items (default [] (js_nth (segmentListRef e) index)))
  end.

(** The synchronous part of the callback given to [observer.observe]
    (lines 202-235) for the observer of page [index]. *)
Definition observerCallback (e : Engine A) (index : Z)
    (res : option IntersectionResult) : option (Engine A) :=
  if negb (isIntersecting res) || Qle_bool (ratioOf res) INTERSECTION_THRESHOLD
  then Some (hidePage e index)
  else if negb (Qle_bool (ratioOf res) INTERSECTION_THRESHOLD)
  then showPage e index
  else Some e.

(** [initHeight(index, update)] once [queryUtils.getPageInfo(index)] has
    answered [pageInfo] (lines 118-140). *)
Definition initHeight (e : Engine A) (index : Z) (pageInfo : PageInfo.t)
    (update : bool) : Engine A :=
  let segLength := js_or_opt (js_length <$> js_nth (segmentListRef e) index) 0 in
  let height := js_or (PageInfo.height pageInfo) (segLength * guessItemHeight e) in
  let pageData :=
    ISubPage.mk (negb (js_length (PageInfo.items pageInfo) =? 0)) height segLength
      (PageInfo.items pageInfo) in
  let e' := set_subPageMap e (<[index := pageData]> (subPageMapRef e)) in
  if update then
    match js_nth (renderList e') index with
    | Some (Placeholder h) =>
        if h =? height then e'
        else set_renderList e' (<[Z.to_nat index := Placeholder height]> (renderList e'))
    | _ => e'
    end
  else e'.

(** The render list built by [initRenderList] (lines 291-305): the first
    page shows its items, the others are placeholders of guessed height. *)
Definition newRenderList (segments : list (list A)) (guess : Z)
    : list (VirtualListSegment A) :=
  imap (fun i seg =>
          if (i =? 0)%nat then Items seg
          else Placeholder (js_length seg * guess)) segments.

(** [initRenderList] up to [setIsCompleted(true)]: the header height is
    [header], the scroll view is [viewHeight] high, [clearObservers] has
    emptied the watcher sets and the records, and [initHeight(index)] has
    run for every page with the answer [getPageInfo index]. *)
Definition initRenderList (getSegmentNum : list A → Z → list (list A))
    (lst : list A) (segmentNum : SegmentNumType)
    (guess screens window header viewHeight : Z)
    (getPageInfo : Z → PageInfo.t) : Engine A :=
  let segments := createSegmentList getSegmentNum lst segmentNum in
  let rl := newRenderList segments guess in
  let e0 := mkEngine rl false segments ∅ ∅ ∅ viewHeight header guess screens window in
  let e1 :=
    foldl (fun e index => initHeight e index (getPageInfo index) false) e0
      (seqZ 0 (js_length rl)) in
  mkEngine (renderList e1) true (segmentListRef e1) (subPageMapRef e1)
    (observersRef e1) (observerCreatingRef e1) (viewHeightRef e1) (headerHeightRef e1)
    (guessItemHeight e1) (screenNum e1) (windowHeight e1).

End Updates.

(** The answer of [getPageInfo] for a page that is not laid out: no height,
    no items. *)
Definition noPageInfo : Z → PageInfo.t := fun _ => PageInfo.mk 0 [].

(** ** Renaming the items

    The engine never looks inside an item: [mapEngine f] applies [f] to
    every item of the segment table and of the render list. *)

Definition mapSegment {A B} (f : A → B) (page : VirtualListSegment A) : VirtualListSegment B :=
  match page with
  | Items content => Items (f <$> content)
  | Placeholder h => Placeholder h
  end.

Definition mapEngine {A B} (f : A → B) (e : Engine A) : Engine B :=
  @mkEngine B (mapSegment f <$> renderList e) (isCompleted e)
    (fmap (M:=list) f <$> segmentListRef e) (subPageMapRef e) (observersRef e)
    (observerCreatingRef e) (viewHeightRef e) (headerHeightRef e) (guessItemHeight e)
    (screenNum e) (windowHeight e).

(** ** Vocabulary of the properties *)

(** The number of items held by the pages before page [p] of a segment
    table: the index of the first item of page [p]. *)
Definition itemsBefore {A} (segments : list (list A)) (p : nat) : Z :=
  foldr (fun seg n => js_length seg + n) 0 (take p segments).

(** Item [index] lies in page [p] of the segment table. *)
Definition inPage {A} (segments : list (list A)) (p : nat) (index : Z) : Prop :=
  ∃ seg, segments !! p = Some seg ∧
         itemsBefore segments p ≤ index < itemsBefore segments p + js_length seg.

(** The height page [index] adds to the position of the items of later
    pages: what [getItemScrollTop] adds for it when it walks past it. *)
Definition contributedHeight {A} (e : Engine A) (index : Z) : Z :=
  match js_nth (renderList e) index, js_nth (segmentListRef e) index with
  | Some page, Some seg => pageHeight e (Z.to_nat index) page (js_length seg)
  | _, _ => 0
  end.

(** The guard of line 408: the page shows its items and its record holds a
    measured height for position [pos]. *)
Definition hasItemHeight {A} (e : Engine A) (pageIdx : nat) (page : VirtualListSegment A)
    (pos : Z) : bool :=
  match page with
  | Items _ =>
      match subPageMapRef e !! Z.of_nat pageIdx with
      | Some pageData => js_length (ISubPage.items pageData) >? pos
      | None => false
      end
  | Placeholder _ => false
  end.

(** The height position [pos] of a page stands for in the arithmetic of
    [getItemScrollTop]: the measured height where the guard of line 408
    holds, the guess otherwise. *)
Definition itemHeightAt {A} (e : Engine A) (pageIdx : nat) (page : VirtualListSegment A)
    (pos : Z) : Z :=
  if hasItemHeight e pageIdx page pos then
    default 0 (js_nth (default [] (ISubPage.items <$> subPageMapRef e !! Z.of_nat pageIdx)) pos)
  else guessItemHeight e.

(** Two pages are alike for the loop when both show their items, or both
    are placeholders of the same height. *)
Definition alike {A} (p q : VirtualListSegment A) : Prop :=
  match p, q with
  | Items _, Items _ => True
  | Placeholder h, Placeholder h' => h = h'
  | _, _ => False
  end.

(** Every measured item height of the record of page [pageIdx] is
    non-negative. *)
Definition heightsNonneg {A} (e : Engine A) (pageIdx : nat) : Prop :=
  ∀ pageData, subPageMapRef e !! Z.of_nat pageIdx = Some pageData →
              Forall (fun h => 0 ≤ h) (ISubPage.items pageData).

(** An engine with one page of three items, shown, of which only the first
    two have a measured height (120 each); the guess is 50. *)
Definition partlyMeasured : Engine nat :=
  mkEngine [Items [0; 1; 2]%nat] true [[0; 1; 2]%nat]
    {[ 0 := ISubPage.mk true 290 3 [120; 120] ]} ∅ ∅ 600 0 50 2 600.

(** ** Navigator (useVirtualList: scrollTo, scrollIntoView)

    The navigator talks to collaborators: the geometry queries of
    [QueryUtils], the scroll view node and the caller's [onScrollToEnd].
    Their behaviour is a parameter ([Platform]): what each answers, given
    everything that happened before.  A run is a function from the events so
    far to a result, or an exception, and the events after it. *)

(** [ScrollInfo]: the answer of [getScrollViewInfo]. *)
Module ScrollInfo.
Record t : Type := mk {
  height : Z;
  scrollHeight : Z;
  scrollTop : Z
}.
End ScrollInfo.

(** [selectorUtils.getSpecificItemSelector(pageIndex, itemIndex)], the
    selector [#vl-item-<pageIndex>-<itemIndex>]. *)
Inductive Selector : Type :=
  | SpecificItem (pageIndex itemIndex : Z).

(** A call that returns a value or throws (an [await] that resolves or
    rejects).  Every call of a run settles in one of these two ways: a
    promise that stays pending for ever has no outcome here, so the runs
    below are the runs in which each awaited collaborator answers.  (The
    geometry query of [checkElementExists] may stay unanswered: its timer
    settles the promise, see [ProbeTimeout].) *)
Inductive outcome (X : Type) : Type :=
  | Returned (x : X)
  | Thrown.
Arguments Returned {X} x.
Arguments Thrown {X}.

(** What the platform does with the query of [checkElementExists]: it
    answers with the rectangle [(width, height)] of the element or with
    [null], or it does not answer within the 5000 ms of the timer, or
    building the query throws. *)
Inductive ProbeAnswer : Type :=
  | ProbeRect (rect : option (Z * Z))
  | ProbeTimeout
  | ProbeThrow.

(** The scroll view node: [scrollTo] may be missing. *)
Record ScrollViewContext : Type := mkNode { hasScrollTo : bool }.

Inductive Event : Type :=
  | EvProbe (selector : Selector) (answer : ProbeAnswer)
  | EvScrollViewInfo (answer : outcome ScrollInfo.t)
  | EvScrollViewNode (answer : outcome (option ScrollViewContext))
  | EvScrollToElement (selector : Selector) (offsetTop : Z) (answer : outcome bool)
  | EvNodeScrollTo (top : Z) (animated : bool) (answer : outcome unit)
  | EvOnScrollToEnd (answer : outcome unit).

Record Platform : Type := mkPlatform {
  probeElement : list Event → Selector → ProbeAnswer;
  queryScrollViewInfo : list Event → outcome ScrollInfo.t;
  queryScrollViewNode : list Event → outcome (option ScrollViewContext);
  scrollElement : list Event → Selector → Z → outcome bool;
  nodeScrollTo : list Event → Z → bool → outcome unit;
  onScrollToEnd : option (list Event → outcome unit)
}.

(** The event asks the scroll container to scroll. *)
Definition isScroll (ev : Event) : bool :=
  match ev with
  | EvScrollToElement _ _ _ | EvNodeScrollTo _ _ _ => true
  | _ => false
  end.

(** A collaborator failed: a call threw or rejected, the scroll node or its
    [scrollTo] is missing, or [scrollToElement] reported failure. *)
Definition collaboratorFailed (ev : Event) : bool :=
  match ev with
  | EvProbe _ ProbeThrow => true
  | EvScrollViewInfo Thrown => true
  | EvScrollViewNode Thrown => true
  | EvScrollViewNode (Returned None) => true
  | EvScrollViewNode (Returned (Some node)) => negb (hasScrollTo node)
  | EvScrollToElement _ _ Thrown => true
  | EvScrollToElement _ _ (Returned false) => true
  | EvNodeScrollTo _ _ Thrown => true
  | EvOnScrollToEnd Thrown => true
  | _ => false
  end.

(** The geometry query of an existence check timed out. *)
Definition timedOut (ev : Event) : bool :=
  match ev with
  | EvProbe _ ProbeTimeout => true
  | _ => false
  end.

Module Run.
Definition M (X : Type) : Type := list Event → outcome X * list Event.

Definition ret {X} (x : X) : M X := fun t => (Returned x, t).

Definition bind {X Y} (m : M X) (k : X → M Y) : M Y :=
  fun t =>
    match m t with
    | (Returned x, t') => k x t'
    | (Thrown, t') => (Thrown, t')
    end.

(** [try { m } catch (error) { handler }] *)
Definition try_catch {X} (m : M X) (handler : M X) : M X :=
  fun t =>
    match m t with
    | (Thrown, t') => handler t'
    | r => r
    end.
End Run.

Notation "'let*' x ':=' m 'in' k" := (Run.bind m (fun x => k))
  (at level 10, x name, m at level 100, k at level 200).

Section Navigator.
Context {A : Type}.
Variable P : Platform.

(** [queryUtils.checkElementExists(selector)] (no cache): the element
    exists when the platform answers a rectangle with a positive width or
    height; no answer in time counts as absent. *)
Definition checkElementExists (selector : Selector) : Run.M bool :=
  fun t =>
    let answer := probeElement P t selector in
    (match answer with
     | ProbeRect (Some (width, height)) => Returned ((width >? 0) || (height >? 0))
     | ProbeRect None => Returned false
     | ProbeTimeout => Returned false
     | ProbeThrow => Thrown
     end, t ++ [EvProbe selector answer]).

Definition getScrollViewInfo : Run.M ScrollInfo.t :=
  fun t => (queryScrollViewInfo P t, t ++ [EvScrollViewInfo (queryScrollViewInfo P t)]).

Definition getScrollViewNode : Run.M (option ScrollViewContext) :=
  fun t => (queryScrollViewNode P t, t ++ [EvScrollViewNode (queryScrollViewNode P t)]).

Definition scrollToElement (selector : Selector) (offsetTop : Z) : Run.M bool :=
  fun t => (scrollElement P t selector offsetTop,
            t ++ [EvScrollToElement selector offsetTop (scrollElement P t selector offsetTop)]).

(** [scrollViewNode.scrollTo({ top, animated })] *)
Definition scrollViewNode_scrollTo (top : Z) (animated : bool) : Run.M unit :=
  fun t => (nodeScrollTo P t top animated,
            t ++ [EvNodeScrollTo top animated (nodeScrollTo P t top animated)]).

(** [execIfFunction(onScrollToEnd)] *)
Definition execIfFunction_onScrollToEnd : Run.M unit :=
  match onScrollToEnd P with
  | Some callback => fun t => (callback t, t ++ [EvOnScrollToEnd (callback t)])
  | None => Run.ret tt
  end.

(** The loop of lines 601-609: the page of item [index] and its position
    in the page; [(0, index)] when no page holds it. *)
Fixpoint findPage (segments : list (list A)) (i currentCount index : Z) : Z * Z :=
  match segments with
  | [] => (0, index)
  | seg :: rest =>
      if currentCount + js_length seg >? index then (i, index - currentCount)
      else findPage rest (i + 1) (currentCount + js_length seg) index
  end.

(** [calculateEstimatedScrollTop] (lines 557-586). *)
Definition calculateEstimatedScrollTop (e : Engine A) (index pageIndex itemIndexInPage : Z)
    : Z :=
  let scrollInfo := getItemScrollTop e index in
  if IItemScrollTop.rendered scrollInfo then IItemScrollTop.scrollTop scrollInfo
  else
    let estimatedTop :=
      foldl (fun top i =>
               top + js_or_opt (ISubPage.height <$> subPageMapRef e !! i)
                       (js_or_opt (js_length <$> js_nth (segmentListRef e) i) 0
                        * guessItemHeight e))
        0 (seqZ 0 pageIndex) in
    estimatedTop + itemIndexInPage * guessItemHeight e + headerHeightRef e.

(** [scrollTo(index, offsetTop)] (lines 591-665). *)
Definition scrollTo (e : Engine A) (index offsetTop : Z) : Run.M bool :=
  if negb (isCompleted e) then Run.ret false
  else
    Run.try_catch
      (let '(pageIndex, itemIndexInPage) := findPage (segmentListRef e) 0 0 index in
       let itemSelector := SpecificItem pageIndex itemIndexInPage in
       let* elementExists := checkElementExists itemSelector in
       if elementExists then
         let* scrollSuccess := scrollToElement itemSelector offsetTop in
         if scrollSuccess then let* _ := execIfFunction_onScrollToEnd in Run.ret true
         else Run.ret false
       else
         let estimatedScrollTop :=
           calculateEstimatedScrollTop e index pageIndex itemIndexInPage in
         if estimatedScrollTop >=? 0 then
           let* vlInfo := getScrollViewInfo in
           let* scrollViewNode := getScrollViewNode in
           if default false (hasScrollTo <$> scrollViewNode) then
             let* _ :=
               scrollViewNode_scrollTo
                 (Z.min (Z.max (estimatedScrollTop - offsetTop) 0)
                    (ScrollInfo.scrollHeight vlInfo)) false in
             let* nowExists := checkElementExists itemSelector in
             if nowExists then
               let* finalSuccess := scrollToElement itemSelector offsetTop in
               if finalSuccess then let* _ := execIfFunction_onScrollToEnd in Run.ret true
               else Run.ret false
             else let* _ := execIfFunction_onScrollToEnd in Run.ret true
           else Run.ret false
         else Run.ret false)
      (Run.ret false).

(** [scrollIntoView(index, offsetTop)] (lines 668-691). *)
Definition scrollIntoView (e : Engine A) (index offsetTop : Z) : Run.M bool :=
  Run.try_catch
    (let* info := getScrollViewInfo in
     let target := getItemScrollTop e index in
     let targetScrollTop := IItemScrollTop.scrollTop target in
     let targetHeight := IItemScrollTop.height target in
     let isInView :=
       (ScrollInfo.scrollTop info <=? targetScrollTop)
       && (ScrollInfo.scrollTop info + ScrollInfo.height info >=? targetScrollTop + targetHeight) in
     if negb isInView then scrollTo e index offsetTop
     else let* _ := execIfFunction_onScrollToEnd in Run.ret true)
    (Run.ret false).

End Navigator.

(** A platform whose existence checks never answer in time, while the
    scroll view answers (400 high, 5000 of content, at the top), the scroll
    node scrolls and there is no [onScrollToEnd]. *)
Definition timeoutPlatform : Platform :=
  mkPlatform
    (fun _ _ => ProbeTimeout)
    (fun _ => Returned (ScrollInfo.mk 400 5000 0))
    (fun _ => Returned (Some (mkNode true)))
    (fun _ _ _ => Returned true)
    (fun _ _ _ => Returned tt)
    None.

(** A platform on which every item is laid out (375 by 50), the scroll view
    answers (400 high, 5000 of content, at the top) and every scroll request
    goes through, but the caller's [onScrollToEnd] throws. *)
Definition throwingCallbackPlatform : Platform :=
  mkPlatform
    (fun _ _ => ProbeRect (Some (375, 50)))
    (fun _ => Returned (ScrollInfo.mk 400 5000 0))
    (fun _ => Returned (Some (mkNode true)))
    (fun _ _ _ => Returned true)
    (fun _ _ _ => Returned tt)
    (Some (fun _ => Thrown)).

(** ** Visibility Controller: installing observers
    (useVirtualList: createIntersectionObserver, clearObservers)

    [createIntersectionObserver] is asynchronous: it runs up to
    [await queryUtils.checkElementExists(...)], is suspended there, and the
    rest runs in a later turn.  A state of the event loop is the engine
    together with the installations suspended at the [await] and the retry
    timers not yet fired; a step is one turn. *)

(** A call [createIntersectionObserver(index, retryCount)], suspended or
    scheduled. *)
Record Install : Type := mkInstall {
  installIndex : Z;
  retryCount : Z
}.

Record EventLoop (A : Type) : Type := mkLoop {
  engine : Engine A;
  awaiting : list Install;
  timers : list Install
}.
Arguments mkLoop {A}.
Arguments engine {A}.
Arguments awaiting {A}.
Arguments timers {A}.

Section Watchers.
Context {A : Type}.

(** [clearObservers] (lines 72-91): every observer is disconnected, the
    two watcher sets and the records are emptied. *)
Definition clearObservers (e : Engine A) : Engine A :=
  set_subPageMap (set_observers e ∅ ∅) ∅.

(** The first turn of [createIntersectionObserver(index, retryCount)]
    (lines 148-165): the two guards, the mark in [observerCreatingRef],
    and the suspension at the [await]. *)
Definition createIntersectionObserver (s : EventLoop A) (index retryCount : Z)
    : EventLoop A :=
  let e := engine s in
  if bool_decide (index ∈ dom (observersRef e))
     || bool_decide (index ∈ observerCreatingRef e)
  then s
  else if (index >=? js_length (segmentListRef e)) || (index <? 0) then s
  else
    mkLoop (set_observers e (observersRef e) ({[index]} ∪ observerCreatingRef e))
      (awaiting s ++ [mkInstall index retryCount]) (timers s).

(** The turn after the [await] (lines 167-274), for the installation [p]
    taken off the suspended ones: the platform answered [answer] to
    [checkElementExists], and [created] tells whether creating and
    binding the observer went through ([false]: the [try] block threw).
    When the [await] itself rejects nothing more runs. *)
Definition createIntersectionObserver_resume (s : EventLoop A) (p : Install)
    (answer : outcome bool) (created : bool) : EventLoop A :=
  let e := engine s in
  let index := installIndex p in
  let unmark := observerCreatingRef e ∖ {[index]} in
  match answer with
  | Thrown => s
  | Returned elementExists =>
      if negb elementExists && (retryCount p <? 3) then
        mkLoop (set_observers e (observersRef e) unmark) (awaiting s)
          (timers s ++ [mkInstall index (retryCount p + 1)])
      else if negb elementExists then
        mkLoop (set_observers e (observersRef e) unmark) (awaiting s) (timers s)
      else
        let height := js_or (viewHeightRef e) (windowHeight e) in
        if created then
          let extendHeight := (screenNum e * height) / 2 in
          mkLoop (set_observers e
                    (<[index := mkObserver extendHeight extendHeight]> (observersRef e))
                    unmark)
            (awaiting s) (timers s)
        else
          mkLoop (set_observers e (observersRef e) unmark) (awaiting s) (timers s)
  end.

(** One turn of the event loop. *)
Inductive step : EventLoop A → EventLoop A → Prop :=
  | step_request s index :
      (* a call from a batch of [initRenderList], from the adjacent pages
         of an observer callback, or from [handleScroll] *)
      step s (createIntersectionObserver s index 0)
  | step_resume s before p after answer created :
      awaiting s = before ++ p :: after →
      step s (createIntersectionObserver_resume
                (mkLoop (engine s) (before ++ after) (timers s)) p answer created)
  | step_timer s before p after :
      timers s = before ++ p :: after →
      step s (createIntersectionObserver
                (mkLoop (engine s) (awaiting s) (before ++ after))
                (installIndex p) (retryCount p))
  | step_clear s :
      step s (mkLoop (clearObservers (engine s)) (awaiting s) (timers s))
  | step_other s e' :
      (* every other turn (a new segment table, the render list, the
         records, the heights): the watcher sets are not touched *)
      observersRef e' = observersRef (engine s) →
      observerCreatingRef e' = observerCreatingRef (engine s) →
      step s (mkLoop e' (awaiting s) (timers s)).

(** The engine starts with both watcher sets empty and nothing pending. *)
Definition initial (s : EventLoop A) : Prop :=
  observersRef (engine s) = ∅ ∧ observerCreatingRef (engine s) = ∅ ∧
  awaiting s = [] ∧ timers s = [].

Definition reachable (s : EventLoop A) : Prop :=
  ∃ s0, initial s0 ∧ rtc step s0 s.

End Watchers.

(** ** Sample states *)

(** Three pages over eight items, under a header of height 30: the first
    page shown and measured (items of height 100, 110 and 120), the second a
    placeholder, the third shown and not yet measured. *)
Definition sampleEngine : Engine nat :=
  mkEngine
    [Items [0; 1; 2]%nat; Placeholder 150; Items [6; 7]%nat]
    true
    [[0; 1; 2]%nat; [3; 4; 5]%nat; [6; 7]%nat]
    {[ 0 := ISubPage.mk true 330 3 [100; 110; 120];
       2 := ISubPage.mk false 100 2 [] ]}
    ∅ ∅ 600 30 50 2 600.

(** An overlap signal below the threshold and one above it. *)
Definition signalOut : option IntersectionResult := Some (mkResult 0 0 0).
Definition signalIn : option IntersectionResult := Some (mkResult (1 # 2) 300 375).

(** The event loop of [sampleEngine] after one call of
    [createIntersectionObserver(1)]. *)
Definition sampleLoop : EventLoop nat :=
  createIntersectionObserver (mkLoop sampleEngine [] []) 1 0.

(** ** Proof automation for runs of the navigator *)

Ltac run_unfold :=
  unfold Run.try_catch, Run.bind, Run.ret, checkElementExists, scrollToElement,
    getScrollViewInfo, getScrollViewNode, scrollViewNode_scrollTo,
    execIfFunction_onScrollToEnd.

(** One more answer of the platform, by cases. *)
Ltac run_step P :=
  match goal with
  | |- context [probeElement P ?t ?s] =>
      destruct (probeElement P t s) as [[[? ?]|]| |] eqn:?
  | |- context [scrollElement P ?t ?s ?o] =>
      destruct (scrollElement P t s o) as [[|]|] eqn:?
  | |- context [queryScrollViewInfo P ?t] =>
      destruct (queryScrollViewInfo P t) as [?|] eqn:?
  | |- context [queryScrollViewNode P ?t] =>
      destruct (queryScrollViewNode P t) as [[[[|]]|]|] eqn:?
  | |- context [nodeScrollTo P ?t ?top ?a] =>
      destruct (nodeScrollTo P t top a) as [[]|] eqn:?
  | |- context [onScrollToEnd P] =>
      destruct (onScrollToEnd P) as [?|] eqn:?
  | c : list Event → outcome unit |- context [?f ?t] =>
      constr_eq f c; destruct (c t) as [[]|] eqn:?
  | |- context [(?w >? 0) || (?h >? 0)] => destruct ((w >? 0) || (h >? 0))
  | |- context [?x >=? 0] => destruct (x >=? 0)
  end; simpl.

(** Closes a branch of a run: the result, the events, and no failure on a
    branch that returns [true]. *)
Ltac run_close :=
  eexists _, _; split;
  [ rewrite <- ?app_assoc; simpl; reflexivity
  | first [ reflexivity
          | intros Hfailed; rewrite ?Exists_cons, ?Exists_nil in Hfailed; simpl in Hfailed;
            intuition congruence ] ].

(** * Further definitions

    The rest of the position arithmetic and of the hook, and the timer
    utilities of utils/virtualList. *)

(** The height the pages before page [p] add to the position of an item of
    page [p]. *)
Definition contributedBefore {A} (e : Engine A) (p : nat) : Z :=
  foldr (fun q acc => contributedHeight e (Z.of_nat q) + acc) 0 (seq 0 p).

(** The number of items of a segment table. *)
Definition totalItems {A} (segments : list (list A)) : Z :=
  itemsBefore segments (length segments).

(** The guess, the placeholder heights, the record heights and the measured
    item heights are not negative. *)
Definition nonnegHeights {A} (e : Engine A) : Prop :=
  0 ≤ guessItemHeight e ∧
  (∀ (q : nat) h, renderList e !! q = Some (Placeholder h) → 0 ≤ h) ∧
  (∀ k pageData, subPageMapRef e !! k = Some pageData →
     0 ≤ ISubPage.height pageData ∧ Forall (fun h => 0 ≤ h) (ISubPage.items pageData)).

(** ** The position of a page (useVirtualList: getPageScrollTop) *)


(** The record [initHeight(index)] stores for the answer [pageInfo]. *)
Definition recordOf {A} (e : Engine A) (index : Z) (pageInfo : PageInfo.t) : ISubPage.t :=
  let segLength := js_or_opt (js_length <$> js_nth (segmentListRef e) index) 0 in
  ISubPage.mk (negb (js_length (PageInfo.items pageInfo) =? 0))
    (js_or (PageInfo.height pageInfo) (segLength * guessItemHeight e)) segLength
    (PageInfo.items pageInfo).

(** Every placeholder of the render list has the best known height of its
    page: the record height, or the guess when there is none. *)
Definition synced {A} (e : Engine A) : Prop :=
  ∀ (q : nat) h, renderList e !! q = Some (Placeholder h) → h = currentHeight e (Z.of_nat q).

(** ** The scroll handler (useVirtualList: handleScroll, outside WEAPP) *)

Section HandleScroll.
Context {A : Type}.

(** The page under the top of the viewport by the estimate (line 491).
    [listLength] is [list.length]. *)
Definition scrollCurrentPage (e : Engine A) (listLength : Z) (info : ScrollInfo.t) : Z :=
  let avgPageLength := Z.max 1 (listLength / js_length (segmentListRef e)) in
  ScrollInfo.scrollTop info / (guessItemHeight e * avgPageLength).

(** [startPage] and [endPage] (lines 490-494).  The quotients are those of
    JavaScript when the divisors are not 0; with an empty segment table or
    a guess of 0 they are [Infinity] or [NaN]: [None]. *)
Definition scrollRange (e : Engine A) (listLength : Z) (info : ScrollInfo.t)
    : option (Z * Z) :=
  if (js_length (segmentListRef e) =? 0) || (guessItemHeight e =? 0) then None
  else
    let avgPageLength := Z.max 1 (listLength / js_length (segmentListRef e)) in
    let currentPage := scrollCurrentPage e listLength info in
    let visibleRange :=
      ceil_div (ScrollInfo.height info) (guessItemHeight e * avgPageLength) + 1 in
    let startPage := Z.max 0 (currentPage - 1) in
    let endPage := Z.min (js_length (segmentListRef e) - 1) (currentPage + visibleRange + 1) in
    Some (startPage, endPage).

(** The update of the render list (lines 497-520): every page that shows
    its items and lies outside [startPage, endPage] becomes a placeholder of
    its best known height.  The list the updates are computed from
    ([renderListRef.current]) and the list they are applied to are the same
    render list. *)
Definition hideOutside (e : Engine A) (startPage endPage : Z) : Engine A :=
  set_renderList e
    (imap (fun pageIndex page =>
             match page with
             | Items _ =>
                 if (Z.of_nat pageIndex <? startPage) || (Z.of_nat pageIndex >? endPage)
                 then Placeholder (currentHeight e (Z.of_nat pageIndex))
                 else page
             | Placeholder _ => page
             end)
       (renderList e)).



End HandleScroll.

(** ** Vocabulary for the runs of the navigator *)

(** The number of events of a run that ask the scroll container to scroll. *)
Definition countScrolls (t : list Event) : nat := length (List.filter isScroll t).

(** The event is a call of the caller's [onScrollToEnd]. *)
Definition isCallback (ev : Event) : bool :=
  match ev with
  | EvOnScrollToEnd _ => true
  | _ => false
  end.

Definition countCallbacks (t : list Event) : nat := length (List.filter isCallback t).

(** The event is part of the jump to an estimated offset: the query of the
    scroll view, of its node, or the direct [scrollTo] on the node. *)
Definition isJump (ev : Event) : bool :=
  match ev with
  | EvScrollViewInfo _ | EvScrollViewNode _ | EvNodeScrollTo _ _ _ => true
  | _ => false
  end.

(** The first action of a run of [scrollTo] and of every case analysis on
    it. *)
Ltac run_scrollTo P e index :=
  unfold scrollTo;
  destruct (isCompleted e) eqn:?; simpl;
  [ destruct (findPage (segmentListRef e) 0 0 index) as [? ?] eqn:?;
    run_unfold; repeat run_step P; simpl
  | ].

(** The result and the events of one branch of a run. *)
Ltac run_result :=
  first [ exists false, []; split; [by rewrite app_nil_r|]
        | eexists _, _; split; [rewrite <- ?app_assoc; simpl; reflexivity|] ].

(** A platform on which every item is laid out (375 by 50), every scroll
    request goes through, and [onScrollToEnd] returns. *)
Definition presentPlatform : Platform :=
  mkPlatform
    (fun _ _ => ProbeRect (Some (375, 50)))
    (fun _ => Returned (ScrollInfo.mk 400 5000 0))
    (fun _ => Returned (Some (mkNode true)))
    (fun _ _ _ => Returned true)
    (fun _ _ _ => Returned tt)
    (Some (fun _ => Returned tt)).


(** ** Timer utilities (utils/virtualList: debounce, throttle)

    A debounced or throttled function is a closure over a few variables and
    the timers it sets.  Its state holds the variables, the timers of the
    closure that the platform still has pending, and the arguments [fn] has
    been called with so far.  A timer handle is a number, fresh at each
    [setTimeout], and counts as true. *)

(** [clearTimeout(timer)] under [if (timer)]. *)
Definition clearTimer (timer : option nat) (pending : gset nat) : gset nat :=
  match timer with
  | Some id => pending ∖ {[id]}
  | None => pending
  end.

Module Debounce.
Section Debounce.
Context {Args : Type}.
Variable immediate : bool.

Record State : Type := mk {
  timer : option nat;
  lastArgs : option Args;
  pending : gset nat;
  nextTimer : nat;
  executed : list Args
}.

(** [debounce(fn, delay, immediate)] before any call. *)
Definition init : State := mk None None ∅ 1 [].

(** [debouncedFn(...args)] *)
Definition call (s : State) (args : Args) : State :=
  let pending1 := clearTimer (timer s) (pending s) in
  let runsNow := immediate && negb (bool_decide (is_Some (timer s))) in
  mk (Some (nextTimer s))
     (if runsNow then None else Some args)
     ({[nextTimer s]} ∪ pending1)
     (S (nextTimer s))
     (if runsNow then executed s ++ [args] else executed s).

(** The callback of the timer [id]. *)
Definition fire (s : State) (id : nat) : State :=
  mk None None (pending s ∖ {[id]}) (nextTimer s)
     (if negb immediate then
        match lastArgs s with
        | Some args => executed s ++ [args]
        | None => executed s
        end
      else executed s).

(** [debouncedFn.cancel()] *)
Definition cancel (s : State) : State :=
  match timer s with
  | Some id => mk None None (pending s ∖ {[id]}) (nextTimer s) (executed s)
  | None => s
  end.

(** [debouncedFn.flush()] *)
Definition flush (s : State) : State :=
  match timer s, lastArgs s with
  | Some id, Some args =>
      mk None None (pending s ∖ {[id]}) (nextTimer s) (executed s ++ [args])
  | _, _ => s
  end.

Inductive Label : Type :=
  | Call (args : Args)
  | Fire (id : nat)
  | Cancel
  | Flush.

(** One thing that happens to the closure; the platform fires only timers
    that are pending. *)
Inductive step : State → Label → State → Prop :=
  | step_call s args : step s (Call args) (call s args)
  | step_fire s id : id ∈ pending s → step s (Fire id) (fire s id)
  | step_cancel s : step s Cancel (cancel s)
  | step_flush s : step s Flush (flush s).

(** [run ls s]: the closure is in state [s] after the history [ls]. *)
Inductive run : list Label → State → Prop :=
  | run_init : run [] init
  | run_step ls s l s' : run ls s → step s l s' → run (ls ++ [l]) s'.

(** The arguments of the calls of a history, in order. *)
Definition callsOf (ls : list Label) : list Args :=
  omap (fun l => match l with Call args => Some args | _ => None end) ls.

End Debounce.
End Debounce.

Module Throttle.
Section Throttle.
Context {Args : Type}.
Variable mustRunDelay : Z.

Record State : Type := mk {
  timer : option nat;
  startTime : option Z;
  lastArgs : option Args;
  pending : gset nat;
  nextTimer : nat;
  executed : list Args
}.

(** [throttle(fn, delay, mustRunDelay)] before any call. *)
Definition init : State := mk None None None ∅ 1 [].

(** [!startTime]: [null] and 0 are false. *)
Definition startOr (startTime : option Z) (curTime : Z) : Z :=
  match startTime with
  | Some t => if t =? 0 then curTime else t
  | None => curTime
  end.

(** The throttled function, called at [Date.now() = curTime]. *)
Definition call (s : State) (curTime : Z) (args : Args) : State :=
  let pending1 := clearTimer (timer s) (pending s) in
  let start := startOr (startTime s) curTime in
  if curTime - start >=? mustRunDelay then
    mk None (Some curTime) None pending1 (nextTimer s) (executed s ++ [args])
  else
    mk (Some (nextTimer s)) (Some start) (Some args) ({[nextTimer s]} ∪ pending1)
       (S (nextTimer s)) (executed s).

(** The callback of the timer [id]. *)
Definition fire (s : State) (id : nat) : State :=
  mk None (startTime s) None (pending s ∖ {[id]}) (nextTimer s)
     (match lastArgs s with
      | Some args => executed s ++ [args]
      | None => executed s
      end).

Inductive Label : Type :=
  | Call (curTime : Z) (args : Args)
  | Fire (id : nat).

Inductive step : State → Label → State → Prop :=
  | step_call s curTime args : step s (Call curTime args) (call s curTime args)
  | step_fire s id : id ∈ pending s → step s (Fire id) (fire s id).

Inductive run : list Label → State → Prop :=
  | run_init : run [] init
  | run_step ls s l s' : run ls s → step s l s' → run (ls ++ [l]) s'.

Definition callsOf (ls : list Label) : list Args :=
  omap (fun l => match l with Call _ args => Some args | _ => None end) ls.

End Throttle.
End Throttle.


(** * Properties *)

(** ** Arithmetic and list helpers *)

Lemma ceil_div_bounds (a b : Z) :
  0 < b → (ceil_div a b - 1) * b < a ∧ a ≤ ceil_div a b * b.
Proof.
  intros Hb. unfold ceil_div.
  pose proof (Z.div_mod (- a) b ltac:(lia)) as Hdm.
  pose proof (Z.mod_pos_bound (- a) b Hb) as Hm.
  nia.
Qed.

Lemma slice_take_drop {A} (l : list A) (s e : Z) :
  0 ≤ s → s ≤ e → e ≤ js_length l →
  slice l s e = take (Z.to_nat (e - s)) (drop (Z.to_nat s) l).
Proof.
  intros Hs Hse He. unfold slice.
  destruct (Z.ltb_spec s 0); [lia|].
  destruct (Z.ltb_spec e 0); [lia|].
  rewrite !Z.min_l by lia. reflexivity.
Qed.

Lemma seqZ_0_S (k : nat) : seqZ 0 (Z.of_nat (S k)) = seqZ 0 (Z.of_nat k) ++ [Z.of_nat k].
Proof.
  replace (Z.of_nat (S k)) with (Z.of_nat k + 1) by lia.
  rewrite seqZ_app by lia. reflexivity.
Qed.

(** The pages written by the first [k] turns of the loop of
    [getSegmentList], in order, are the first [k * segmentNum] items. *)
Lemma segments_prefix {A} (l : list A) (segmentNum : Z) (k : nat) :
  0 < segmentNum →
  (Z.of_nat k - 1) * segmentNum < js_length l →
  concat ((fun i => slice l (i * segmentNum)
                      (Z.min (i * segmentNum + segmentNum) (js_length l)))
            <$> seqZ 0 (Z.of_nat k))
  = take (Z.to_nat (Z.min (Z.of_nat k * segmentNum) (js_length l))) l.
Proof.
  intros Hs. induction k as [|k IH]; intros Hk.
  - simpl. rewrite Z.min_l by (unfold js_length; lia). reflexivity.
  - rewrite seqZ_0_S, fmap_app, concat_app, IH by lia.
    simpl. rewrite app_nil_r.
    rewrite slice_take_drop by lia.
    replace (Z.of_nat (S k) - 1) with (Z.of_nat k) in Hk by lia.
    rewrite (Z.min_l (Z.of_nat k * segmentNum)) by lia.
    rewrite take_take_drop. f_equal. lia.
Qed.

(** ** C1: the segmenter round-trips *)

(** C1. For every non-empty list and every segment size of at least 1, the
    segments of [getSegmentList], concatenated in order, are the original
    list: the same items in the same order, and so the same length. *)
Theorem getSegmentList_concat {A} (lst : list A) (segmentNum : Z) :
  lst ≠ [] → 1 ≤ segmentNum →
  concat (getSegmentList lst segmentNum) = lst ∧
  length (concat (getSegmentList lst segmentNum)) = length lst.
Proof.
  intros Hne Hs.
  assert (concat (getSegmentList lst segmentNum) = lst) as Heq.
  { unfold getSegmentList.
    assert (0 < js_length lst) as Hlen.
    { unfold js_length. destruct lst; [done | simpl; lia]. }
    destruct (Z.eqb_spec (js_length lst) 0); [lia|].
    destruct (Z.leb_spec segmentNum 0); [lia|].
    pose proof (ceil_div_bounds (js_length lst) segmentNum ltac:(lia)) as [Hlo Hhi].
    set (totalPages := ceil_div (js_length lst) segmentNum) in *.
    assert (0 ≤ totalPages) as Hn by nia.
    rewrite <- (Z2Nat.id totalPages Hn).
    rewrite segments_prefix by (rewrite ?Z2Nat.id; lia).
    rewrite Z2Nat.id by lia. rewrite Z.min_r by lia.
    unfold js_length. rewrite Nat2Z.id. apply firstn_all. }
  split; [exact Heq | by rewrite Heq].
Qed.

Lemma getSegmentList_concat_witness :
  concat (getSegmentList [1; 2; 3; 4; 5] 2) = [1; 2; 3; 4; 5] ∧
  length (concat (getSegmentList [1; 2; 3; 4; 5] 2)) = length [1; 2; 3; 4; 5].
Proof. apply (getSegmentList_concat [1; 2; 3; 4; 5] 2); [discriminate | lia]. Defined.

(** ** The shape of the segment table *)

Lemma getSegmentList_length {A} (lst : list A) (segmentNum : Z) :
  lst ≠ [] → 0 < segmentNum →
  js_length (getSegmentList lst segmentNum) = ceil_div (js_length lst) segmentNum.
Proof.
  intros Hne Hs. unfold getSegmentList.
  assert (0 < js_length lst) as Hlen.
  { unfold js_length. destruct lst; [done | simpl; lia]. }
  destruct (Z.eqb_spec (js_length lst) 0); [lia|].
  destruct (Z.leb_spec segmentNum 0); [lia|].
  pose proof (ceil_div_bounds (js_length lst) segmentNum Hs).
  unfold js_length at 1. rewrite length_fmap, length_seqZ. nia.
Qed.

(** Page [i] of the table holds [segmentNum] items from item [i * segmentNum]
    on, fewer when the list ends before. *)
Lemma getSegmentList_lookup {A} (lst : list A) (segmentNum : Z) (i : nat) (seg : list A) :
  lst ≠ [] → 0 < segmentNum →
  getSegmentList lst segmentNum !! i = Some seg →
  Z.of_nat i * segmentNum < js_length lst ∧
  seg = take (Z.to_nat (Z.min segmentNum (js_length lst - Z.of_nat i * segmentNum)))
          (drop (Z.to_nat (Z.of_nat i * segmentNum)) lst).
Proof.
  intros Hne Hs. unfold getSegmentList.
  assert (0 < js_length lst) as Hlen.
  { unfold js_length. destruct lst; [done | simpl; lia]. }
  destruct (Z.eqb_spec (js_length lst) 0); [lia|].
  destruct (Z.leb_spec segmentNum 0); [lia|].
  pose proof (ceil_div_bounds (js_length lst) segmentNum Hs) as [Hlo Hhi].
  rewrite list_lookup_fmap. intros Hi.
  destruct (seqZ 0 (ceil_div (js_length lst) segmentNum) !! i) as [j|] eqn:Hj;
    [|discriminate].
  apply lookup_seqZ in Hj as [-> Hj]. simpl in Hi. injection Hi as <-.
  rewrite Z.add_0_l.
  assert (Z.of_nat i * segmentNum < js_length lst) as Hlt by nia.
  split; [exact Hlt|].
  rewrite slice_take_drop by lia. f_equal. lia.
Qed.

Lemma getSegmentList_seg_length {A} (lst : list A) (segmentNum : Z) (i : nat) (seg : list A) :
  lst ≠ [] → 0 < segmentNum →
  getSegmentList lst segmentNum !! i = Some seg →
  js_length seg = Z.min segmentNum (js_length lst - Z.of_nat i * segmentNum).
Proof.
  intros Hne Hs Hi.
  destruct (getSegmentList_lookup lst segmentNum i seg Hne Hs Hi) as [Hlt ->].
  unfold js_length in *. rewrite length_take, length_drop. lia.
Qed.

(** Every page but the last holds exactly [segmentNum] items. *)
Lemma getSegmentList_full_pages {A} (lst : list A) (segmentNum : Z) (i : nat) (seg : list A) :
  lst ≠ [] → 0 < segmentNum →
  getSegmentList lst segmentNum !! i = Some seg →
  (S i < length (getSegmentList lst segmentNum))%nat →
  js_length seg = segmentNum.
Proof.
  intros Hne Hs Hi Hlast.
  rewrite (getSegmentList_seg_length lst segmentNum i seg Hne Hs Hi).
  pose proof (getSegmentList_length lst segmentNum Hne Hs) as Hlen.
  pose proof (ceil_div_bounds (js_length lst) segmentNum Hs) as [Hlo Hhi].
  unfold js_length in Hlen at 1.
  assert (Z.of_nat (S i) ≤ ceil_div (js_length lst) segmentNum - 1) by lia.
  nia.
Qed.

Lemma getSegmentList_nil {A} (segmentNum : Z) : getSegmentList (@nil A) segmentNum = [].
Proof. reflexivity. Qed.

(** The segmenter never makes an empty page. *)
Lemma getSegmentList_nonempty {A} (lst : list A) (segmentNum : Z) :
  Forall (fun seg => seg ≠ []) (getSegmentList lst segmentNum).
Proof.
  apply Forall_lookup. intros i seg Hi.
  assert (lst ≠ []) as Hne.
  { intros ->. by rewrite getSegmentList_nil, lookup_nil in Hi. }
  destruct (Z.leb_spec segmentNum 0) as [Hle|Hgt].
  - unfold getSegmentList in Hi.
    assert (0 < js_length lst) by (unfold js_length; destruct lst; [done | simpl; lia]).
    destruct (Z.eqb_spec (js_length lst) 0); [lia|].
    destruct (Z.leb_spec segmentNum 0); [|lia].
    destruct i; simpl in Hi; [by injection Hi as <- | by rewrite lookup_nil in Hi].
  - pose proof (getSegmentList_seg_length lst segmentNum i seg Hne Hgt Hi) as Hlen.
    destruct (getSegmentList_lookup lst segmentNum i seg Hne Hgt Hi) as [Hlt _].
    intros ->. unfold js_length in Hlen at 1. simpl in Hlen. lia.
Qed.

(** ** C5: the smart segment size *)

(** C5. For every collection of length L, the segment size chosen for
    [segmentNum = 'smart'] is max(10, floor(sqrt(L))): [Z.sqrt L] is the
    floor of the square root, this is the number handed to the segmenter,
    and every page of the table of [getSegmentList] but the last holds
    exactly that many items. *)
Theorem smart_segment_size {A} (lst : list A) :
  let L := js_length lst in
  let r := Z.sqrt L in
  (0 ≤ r ∧ r * r ≤ L < (r + 1) * (r + 1)) ∧
  resolveSegmentNum lst Smart = Z.max 10 r ∧
  createSegmentList getSegmentList lst Smart = getSegmentList lst (Z.max 10 r) ∧
  ∀ (i : nat) seg,
    createSegmentList getSegmentList lst Smart !! i = Some seg →
    (S i < length (createSegmentList getSegmentList lst Smart))%nat →
    js_length seg = Z.max 10 r.
Proof.
  intros L r.
  assert (0 ≤ L) as HL by (unfold L, js_length; lia).
  split; [|split; [reflexivity|split; [reflexivity|]]].
  - split; [apply Z.sqrt_nonneg|].
    pose proof (Z.sqrt_spec L HL) as Hsq. unfold r.
    replace (Z.sqrt L + 1) with (Z.succ (Z.sqrt L)) by lia. exact Hsq.
  - intros i seg Hi Hlast. unfold createSegmentList in *. simpl in *.
    assert (lst ≠ []) as Hne.
    { intros ->. by rewrite getSegmentList_nil, lookup_nil in Hi. }
    eapply getSegmentList_full_pages; [exact Hne | lia | exact Hi | exact Hlast].
Qed.

(** ** C10 and C4: the ends of the index range *)

(** C10. For every negative index [getItemScrollTop] returns exactly
    [{ height: 0, scrollTop: 0, rendered: false, pageIndex: 0 }]: its
    [scrollTop] is 0 whatever the header height is. *)
Theorem getItemScrollTop_negative {A} (e : Engine A) (index : Z) :
  index < 0 →
  getItemScrollTop e index = IItemScrollTop.mk 0 0 false 0 ∧
  IItemScrollTop.scrollTop (getItemScrollTop e index) = 0.
Proof.
  intros Hneg. unfold getItemScrollTop.
  destruct (Z.ltb_spec index 0); [done | lia].
Qed.

Lemma sum_heights_nil : sum_heights [] = 0.
Proof. reflexivity. Qed.

Lemma slice_0_0 {A} (l : list A) : slice l 0 0 = [].
Proof. unfold slice. simpl. rewrite Z.min_l by (unfold js_length; lia). reflexivity. Qed.

(** At position 0 of its page an item adds nothing to [scrollTop]. *)
Lemma locateInPage_0 {A} (e : Engine A) (pageIdx : nat) (page : VirtualListSegment A) :
  (locateInPage e pageIdx page 0).1.2 = 0.
Proof.
  unfold locateInPage. destruct page as [content|h]; simpl; [|lia].
  destruct (subPageMapRef e !! Z.of_nat pageIdx) as [pageData|]; simpl; [|lia].
  destruct (js_length (ISubPage.items pageData) >? 0); simpl; [|lia].
  by rewrite slice_0_0.
Qed.

(** When the first page of the table is not empty, item 0 is found there. *)
Lemma getItemScrollTop_0 {A} (e : Engine A) :
  (∀ seg, segmentListRef e !! 0%nat = Some seg → seg ≠ []) →
  IItemScrollTop.scrollTop (getItemScrollTop e 0) = headerHeightRef e.
Proof.
  intros Hfirst. unfold getItemScrollTop. simpl.
  destruct (renderList e) as [|page rest]; [reflexivity|]. simpl.
  destruct (segmentListRef e !! 0%nat) as [seg|] eqn:Hseg; [|reflexivity].
  specialize (Hfirst seg eq_refl).
  assert (0 < js_length seg) by (unfold js_length; destruct seg; [done | simpl; lia]).
  destruct (Z.ltb_spec (0 + js_length seg - 1) 0); [lia|].
  pose proof (locateInPage_0 e 0 page) as Hadd. rewrite Z.sub_0_r.
  destruct (locateInPage e 0 page 0) as [[height added] rendered]. simpl in *. lia.
Qed.

(** C4. For every non-empty collection and every segmentation of it into
    segments (none of them empty), whatever the render list, the records and
    the guess are, [getItemScrollTop(0)] has [scrollTop] equal to the header
    height: no page height and no item height is added. *)
Theorem getItemScrollTop_first_item {A} (e : Engine A) (lst : list A) :
  lst ≠ [] →
  concat (segmentListRef e) = lst →
  Forall (fun seg => seg ≠ []) (segmentListRef e) →
  IItemScrollTop.scrollTop (getItemScrollTop e 0) = headerHeightRef e.
Proof.
  intros _ _ Hsegs. apply getItemScrollTop_0.
  intros seg Hseg. by eapply (proj1 (Forall_lookup _ _)) in Hsegs.
Qed.

(** The segmentations made by the built-in segmenter, for every segment
    size, smart or not, are covered by C4. *)
Lemma getItemScrollTop_first_item_builtin {A} (e : Engine A) (lst : list A)
    (segmentNum : SegmentNumType) :
  segmentListRef e = createSegmentList getSegmentList lst segmentNum →
  IItemScrollTop.scrollTop (getItemScrollTop e 0) = headerHeightRef e.
Proof.
  intros Hsegs. apply getItemScrollTop_0. intros seg Hseg.
  rewrite Hsegs in Hseg. unfold createSegmentList in Hseg.
  by eapply (proj1 (Forall_lookup _ _) (getSegmentList_nonempty _ _)) in Hseg.
Qed.

(** ** Items are opaque to the engine *)

Lemma js_length_fmap {A B} (f : A → B) (l : list A) : js_length (f <$> l) = js_length l.
Proof. unfold js_length. by rewrite length_fmap. Qed.

Lemma js_nth_fmap {A B} (f : A → B) (l : list A) (i : Z) :
  js_nth (f <$> l) i = f <$> js_nth l i.
Proof. unfold js_nth. destruct (i <? 0); [done | apply list_lookup_fmap]. Qed.

Lemma slice_fmap {A B} (f : A → B) (l : list A) (s e : Z) :
  slice (f <$> l) s e = f <$> slice l s e.
Proof. unfold slice. by rewrite js_length_fmap, fmap_take, fmap_drop. Qed.

Lemma getSegmentList_fmap {A B} (f : A → B) (lst : list A) (segmentNum : Z) :
  getSegmentList (f <$> lst) segmentNum = fmap (M:=list) f <$> getSegmentList lst segmentNum.
Proof.
  unfold getSegmentList. rewrite js_length_fmap.
  destruct (js_length lst =? 0); [done|].
  destruct (segmentNum <=? 0); [done|].
  rewrite <- list_fmap_compose. apply list_fmap_ext. intros i x _. simpl.
  by rewrite slice_fmap.
Qed.

Lemma createSegmentList_fmap {A B} (f : A → B) (lst : list A) (segmentNum : SegmentNumType) :
  createSegmentList getSegmentList (f <$> lst) segmentNum
  = fmap (M:=list) f <$> createSegmentList getSegmentList lst segmentNum.
Proof.
  unfold createSegmentList, resolveSegmentNum. rewrite js_length_fmap.
  apply getSegmentList_fmap.
Qed.

Lemma pageHeight_fmap {A B} (f : A → B) (e : Engine A) pageIdx page pageLength :
  pageHeight (mapEngine f e) pageIdx (mapSegment f page) pageLength
  = pageHeight e pageIdx page pageLength.
Proof. by destruct page. Qed.

Lemma locateInPage_fmap {A B} (f : A → B) (e : Engine A) pageIdx page pos :
  locateInPage (mapEngine f e) pageIdx (mapSegment f page) pos
  = locateInPage e pageIdx page pos.
Proof. by destruct page. Qed.

Lemma scrollTopLoop_fmap {A B} (f : A → B) (e : Engine A) index pages pageIdx
    scrollTop curIdx segIdx :
  scrollTopLoop (mapEngine f e) index (mapSegment f <$> pages) pageIdx scrollTop curIdx segIdx
  = scrollTopLoop e index pages pageIdx scrollTop curIdx segIdx.
Proof.
  revert pageIdx scrollTop curIdx segIdx.
  induction pages as [|page rest IH]; intros pageIdx scrollTop curIdx segIdx; [done|].
  simpl. rewrite list_lookup_fmap.
  destruct (segmentListRef e !! pageIdx) as [seg|]; [|done]. simpl.
  rewrite js_length_fmap, pageHeight_fmap, locateInPage_fmap, IH. reflexivity.
Qed.

(** Positions do not depend on what the items are. *)
Lemma getItemScrollTop_fmap {A B} (f : A → B) (e : Engine A) (index : Z) :
  getItemScrollTop (mapEngine f e) index = getItemScrollTop e index.
Proof.
  unfold getItemScrollTop. destruct (index <? 0); [done|].
  change (renderList (mapEngine f e)) with (mapSegment f <$> renderList e).
  rewrite scrollTopLoop_fmap, js_length_fmap. reflexivity.
Qed.

Lemma initHeight_fmap {A B} (f : A → B) (e : Engine A) index pageInfo :
  initHeight (mapEngine f e) index pageInfo false
  = mapEngine f (initHeight e index pageInfo false).
Proof.
  unfold initHeight, mapEngine, set_subPageMap. simpl.
  rewrite js_nth_fmap. destruct (js_nth (segmentListRef e) index) as [seg|]; simpl;
    by rewrite ?js_length_fmap.
Qed.

Lemma newRenderList_fmap {A B} (f : A → B) (segments : list (list A)) (guess : Z) :
  newRenderList (fmap (M:=list) f <$> segments) guess = mapSegment f <$> newRenderList segments guess.
Proof.
  unfold newRenderList. rewrite imap_fmap, fmap_imap. apply imap_ext.
  intros i seg _. simpl. destruct (i =? 0)%nat; simpl; by rewrite ?js_length_fmap.
Qed.

Lemma initRenderList_fmap {A B} (f : A → B) (lst : list A) segmentNum
    guess screens window header viewHeight getPageInfo :
  initRenderList getSegmentList (f <$> lst) segmentNum guess screens window header
    viewHeight getPageInfo
  = mapEngine f (initRenderList getSegmentList lst segmentNum guess screens window header
                   viewHeight getPageInfo).
Proof.
  unfold initRenderList.
  rewrite createSegmentList_fmap, newRenderList_fmap, js_length_fmap.
  set (segments := createSegmentList getSegmentList lst segmentNum).
  set (e0 := mkEngine (newRenderList segments guess) false segments ∅ ∅ ∅ viewHeight header
               guess screens window).
  change (mkEngine (mapSegment f <$> newRenderList segments guess) false
            (fmap (M:=list) f <$> segments) ∅ ∅ ∅ viewHeight header guess screens window)
    with (mapEngine f e0).
  generalize (seqZ 0 (js_length (newRenderList segments guess))) as indices.
  generalize e0 as e. clear e0.
  intros e indices. revert e.
  induction indices as [|index indices IH]; intros e; [done|].
  cbn [foldl]. rewrite initHeight_fmap. apply IH.
Qed.

Lemma fmap_const_replicate {A} (l : list A) :
  (fun _ => tt) <$> l = replicate (length l) tt.
Proof. induction l as [|x l IH]; [done | cbn [fmap list_fmap length replicate]; by f_equal]. Qed.

(** ** C3: ten thousand items before any measurement *)

(** C3. For a collection of 10,000 items, [guessItemHeight = 50],
    [segmentNum = 'smart'], a header of height 0 and no page laid out when
    [initRenderList] asks for its size (no measurement recorded), the
    segment size is 100, the segment table has 100 pages, and
    [getItemScrollTop(250)] has [scrollTop = 250 * 50 = 12500] and
    [rendered = false] (with [height = 50] and [pageIndex = 2]). *)
Theorem ten_thousand_items {A} (lst : list A) (screens window viewHeight : Z) :
  length lst = Z.to_nat 10000 →
  let e := initRenderList getSegmentList lst Smart 50 screens window 0 viewHeight noPageInfo in
  resolveSegmentNum lst Smart = 100 ∧
  js_length (segmentListRef e) = 100 ∧
  getItemScrollTop e 250 = IItemScrollTop.mk 50 12500 false 2 ∧
  IItemScrollTop.scrollTop (getItemScrollTop e 250) = 250 * 50.
Proof.
  intros Hlen e.
  assert (resolveSegmentNum lst Smart = 100) as Hnum.
  { unfold resolveSegmentNum, js_length. rewrite Hlen. reflexivity. }
  assert (mapEngine (fun _ => tt) e
          = initRenderList getSegmentList (replicate (Z.to_nat 10000) tt) Smart 50
              screens window 0 viewHeight noPageInfo) as He.
  { unfold e. rewrite <- initRenderList_fmap, fmap_const_replicate, Hlen. reflexivity. }
  assert (getItemScrollTop e 250 = IItemScrollTop.mk 50 12500 false 2) as Hloc.
  { rewrite <- (getItemScrollTop_fmap (fun _ => tt)), He. vm_compute. reflexivity. }
  split; [exact Hnum|]. split; [|split; [exact Hloc | by rewrite Hloc]].
  transitivity (js_length (segmentListRef (mapEngine (fun _ => tt) e))).
  { simpl. by rewrite js_length_fmap. }
  rewrite He. vm_compute. reflexivity.
Qed.

Lemma ten_thousand_items_witness :
  let e := initRenderList getSegmentList (replicate (Z.to_nat 10000) 0) Smart 50 2 600 0 600
             noPageInfo in
  getItemScrollTop e 250 = IItemScrollTop.mk 50 12500 false 2.
Proof.
  intros e.
  apply (ten_thousand_items (replicate (Z.to_nat 10000) 0) 2 600 600).
  vm_compute. reflexivity.
Defined.

(** ** Walking the render list *)

Lemma itemsBefore_0 {A} (segments : list (list A)) : itemsBefore segments 0 = 0.
Proof. reflexivity. Qed.

Lemma itemsBefore_drop_S {A} (segments : list (list A)) (p d : nat) (seg : list A) :
  segments !! p = Some seg →
  itemsBefore (drop p segments) (S d) = js_length seg + itemsBefore (drop (S p) segments) d.
Proof.
  intros Hseg. unfold itemsBefore. by rewrite (drop_S _ _ _ Hseg).
Qed.

Lemma scrollTopLoop_alike {A} (e : Engine A) index pages pages' pageIdx
    scrollTop curIdx segIdx :
  Forall2 alike pages pages' →
  scrollTopLoop e index pages pageIdx scrollTop curIdx segIdx
  = scrollTopLoop e index pages' pageIdx scrollTop curIdx segIdx.
Proof.
  intros Hall. revert pageIdx scrollTop curIdx segIdx.
  induction Hall as [|p q pages pages' Hpq _ IH]; intros pageIdx scrollTop curIdx segIdx;
    [done|].
  simpl. destruct (segmentListRef e !! pageIdx) as [seg|]; [|done].
  rewrite IH.
  destruct p as [c|h], q as [c'|h']; simpl in Hpq; try done; by subst.
Qed.

(** Replacing the page [d] places ahead by one that adds the same height
    does not move any item outside that page. *)
Lemma scrollTopLoop_replace {A} (e : Engine A) (newPage page : VirtualListSegment A)
    (seg : list A) (index : Z) (d : nat) :
  ∀ pages pageIdx scrollTop curIdx segIdx,
    pages !! d = Some page →
    segmentListRef e !! (pageIdx + d)%nat = Some seg →
    pageHeight e (pageIdx + d) newPage (js_length seg)
      = pageHeight e (pageIdx + d) page (js_length seg) →
    curIdx ≤ index →
    (index < curIdx + itemsBefore (drop pageIdx (segmentListRef e)) d ∨
     curIdx + itemsBefore (drop pageIdx (segmentListRef e)) d + js_length seg ≤ index) →
    scrollTopLoop e index (<[d := newPage]> pages) pageIdx scrollTop curIdx segIdx
    = scrollTopLoop e index pages pageIdx scrollTop curIdx segIdx.
Proof.
  induction d as [|d IH]; intros pages pageIdx scrollTop curIdx segIdx Hpage Hseg Hh Hcur Hout.
  - destruct pages as [|p0 rest]; [done|]. simpl in Hpage. injection Hpage as ->.
    rewrite Nat.add_0_r in Hseg, Hh. rewrite itemsBefore_0 in Hout.
    simpl. rewrite Hseg.
    destruct (Z.ltb_spec (curIdx + js_length seg - 1) index); [|lia].
    by rewrite Hh.
  - destruct pages as [|p0 rest]; [done|]. simpl in Hpage.
    simpl. destruct (segmentListRef e !! pageIdx) as [seg0|] eqn:Hseg0; [|done].
    rewrite (itemsBefore_drop_S _ _ _ _ Hseg0) in Hout.
    destruct (Z.ltb_spec (curIdx + js_length seg0 - 1) index); [|done].
    apply IH; try done.
    + by replace (S pageIdx + d)%nat with (pageIdx + S d)%nat by lia.
    + by replace (S pageIdx + d)%nat with (pageIdx + S d)%nat by lia.
    + lia.
    + lia.
Qed.

(** The items of the page [d] places ahead are found in that page, all from
    the same base offset. *)
Lemma scrollTopLoop_found {A} (e : Engine A) (page : VirtualListSegment A)
    (seg : list A) (d : nat) :
  ∀ pages pageIdx scrollTop curIdx segIdx,
    pages !! d = Some page →
    segmentListRef e !! (pageIdx + d)%nat = Some seg →
    ∃ base, ∀ index,
      curIdx + itemsBefore (drop pageIdx (segmentListRef e)) d ≤ index
        < curIdx + itemsBefore (drop pageIdx (segmentListRef e)) d + js_length seg →
      scrollTopLoop e index pages pageIdx scrollTop curIdx segIdx
      = let '(height, added, rendered) :=
          locateInPage e (pageIdx + d) page
            (index - (curIdx + itemsBefore (drop pageIdx (segmentListRef e)) d)) in
        (height, base + added, rendered, segIdx + Z.of_nat d).
Proof.
  induction d as [|d IH]; intros pages pageIdx scrollTop curIdx segIdx Hpage Hseg.
  - destruct pages as [|p0 rest]; [done|]. simpl in Hpage. injection Hpage as ->.
    rewrite Nat.add_0_r in *. exists scrollTop. intros index Hin.
    rewrite itemsBefore_0 in *. simpl. rewrite Hseg.
    destruct (Z.ltb_spec (curIdx + js_length seg - 1) index); [lia|].
    rewrite !Z.add_0_r. reflexivity.
  - destruct pages as [|p0 rest]; [done|]. simpl in Hpage.
    assert (is_Some (segmentListRef e !! pageIdx)) as [seg0 Hseg0].
    { apply lookup_lt_is_Some. apply lookup_lt_Some in Hseg. lia. }
    replace (pageIdx + S d)%nat with (S pageIdx + d)%nat in * by lia.
    destruct (IH rest (S pageIdx) (scrollTop + pageHeight e pageIdx p0 (js_length seg0))
                (curIdx + js_length seg0) (segIdx + 1) Hpage Hseg) as [base Hbase].
    exists base. intros index Hin.
    rewrite (itemsBefore_drop_S _ _ _ _ Hseg0) in *.
    assert (0 ≤ itemsBefore (drop (S pageIdx) (segmentListRef e)) d) as Hnn.
    { unfold itemsBefore. generalize (take d (drop (S pageIdx) (segmentListRef e))).
      intros l. induction l; simpl; unfold js_length in *; lia. }
    simpl. rewrite Hseg0.
    destruct (Z.ltb_spec (curIdx + js_length seg0 - 1) index); [|lia].
    rewrite Hbase by lia.
    replace (index - (curIdx + js_length seg0 + itemsBefore (drop (S pageIdx) (segmentListRef e)) d))
      with (index - (curIdx + (js_length seg0 + itemsBefore (drop (S pageIdx) (segmentListRef e)) d)))
      by lia.
    destruct (locateInPage _ _ _ _) as [[height added] rendered].
    f_equal. lia.
Qed.

(** ** C6: hiding and showing a page *)

Lemma js_nth_Some {A} (l : list A) (i : Z) (x : A) :
  js_nth l i = Some x → 0 ≤ i ∧ l !! Z.to_nat i = Some x ∧ i < js_length l.
Proof.
  unfold js_nth, js_length. destruct (Z.ltb_spec i 0); [done|].
  intros Hx. pose proof (lookup_lt_Some _ _ _ Hx). split; [lia | split; [done | lia]].
Qed.

Lemma js_nth_lookup {A} (l : list A) (i : Z) : 0 ≤ i → js_nth l i = l !! Z.to_nat i.
Proof. unfold js_nth. destruct (Z.ltb_spec i 0); [lia | done]. Qed.

Lemma currentHeight_pageHeight {A} (e : Engine A) (index : Z) (content seg : list A) :
  0 ≤ index → js_nth (segmentListRef e) index = Some seg →
  currentHeight e index = pageHeight e (Z.to_nat index) (Items content) (js_length seg).
Proof.
  intros Hi Hseg. unfold currentHeight, pageHeight. rewrite Hseg, Z2Nat.id by done.
  simpl. f_equal. unfold js_or. destruct (Z.eqb_spec (js_length seg) 0); lia.
Qed.

Lemma Forall2_alike_insert {A} (l : list (VirtualListSegment A)) (i : nat) c c' :
  l !! i = Some (Items c) → Forall2 alike (<[i := Items c']> l) l.
Proof.
  intros Hi. apply Forall2_same_length_lookup_2; [by rewrite length_insert|].
  intros j x y Hx Hy. destruct (decide (i = j)) as [->|Hne].
  - rewrite list_lookup_insert_eq in Hx by (by eapply lookup_lt_Some).
    injection Hx as <-. rewrite Hi in Hy. by injection Hy as <-.
  - rewrite list_lookup_insert_ne in Hx by done. rewrite Hx in Hy. injection Hy as <-.
    by destruct x.
Qed.

(** C6. A page that shows its items and is swapped to a placeholder by an
    overlap signal at or below the threshold, then back by a signal above
    it, with no measurement in between, adds the same height to position
    calculations throughout.  The placeholder takes the best known height:
    the record height when there is one (and it is not 0), else item count
    times guess; that is the height the shown page adds.  So after the first
    swap every item outside the page keeps its located position, and after
    the second every item does. *)
Theorem swap_keeps_height {A} (e : Engine A) (index : Z) (content seg : list A)
    (low high : option IntersectionResult) :
  js_nth (renderList e) index = Some (Items content) →
  js_nth (segmentListRef e) index = Some seg →
  (isIntersecting low = false ∨ (ratioOf low <= INTERSECTION_THRESHOLD)%Q) →
  (isIntersecting high = true ∧ (INTERSECTION_THRESHOLD < ratioOf high)%Q) →
  ∃ e1 e2,
    observerCallback e index low = Some e1 ∧
    observerCallback e1 index high = Some e2 ∧
    js_nth (renderList e1) index = Some (Placeholder (currentHeight e index)) ∧
    js_nth (renderList e2) index = Some (Items seg) ∧
    (∀ pageData, subPageMapRef e !! index = Some pageData → ISubPage.height pageData ≠ 0 →
       currentHeight e index = ISubPage.height pageData) ∧
    ((subPageMapRef e !! index = None ∨
      ISubPage.height <$> subPageMapRef e !! index = Some 0) →
       currentHeight e index = js_length seg * guessItemHeight e) ∧
    contributedHeight e1 index = contributedHeight e index ∧
    contributedHeight e2 index = contributedHeight e index ∧
    (∀ k, ¬ inPage (segmentListRef e) (Z.to_nat index) k →
       getItemScrollTop e1 k = getItemScrollTop e k) ∧
    (∀ k, getItemScrollTop e2 k = getItemScrollTop e k).
Proof.
  intros Hpage Hseg Hlow [Hhigh1 Hhigh2].
  destruct (js_nth_Some _ _ _ Hpage) as (Hi & Hpage' & Hlen).
  destruct (js_nth_Some _ _ _ Hseg) as (_ & Hseg' & _).
  set (p := Z.to_nat index) in *.
  assert (p < length (renderList e))%nat as Hp by (by eapply lookup_lt_Some).
  pose (e1 := set_renderList e (<[p := Placeholder (currentHeight e index)]> (renderList e))).
  pose (e2 := set_renderList e1 (<[p := Items seg]> (renderList e1))).
  assert (hidePage e index = e1) as Hhide.
  { unfold hidePage. by rewrite Hpage. }
  assert (js_nth (renderList e1) index = Some (Placeholder (currentHeight e index))) as Hpage1.
  { rewrite js_nth_lookup by done. simpl. by apply list_lookup_insert_eq. }
  assert (showPage e1 index = Some e2) as Hshow.
  { unfold showPage. rewrite Hpage1. change (segmentListRef e1) with (segmentListRef e).
    rewrite Hseg. simpl. unfold js_set.
    destruct (Z.ltb_spec index 0); [lia|].
    unfold js_length. rewrite length_insert.
    destruct (Z.ltb_spec index (Z.of_nat (length (renderList e)))); [done|].
    unfold js_length in Hlen. lia. }
  assert (renderList e2 = <[p := Items seg]> (renderList e)) as Hrl2.
  { simpl. by rewrite list_insert_insert_eq. }
  assert (js_nth (renderList e2) index = Some (Items seg)) as Hpage2.
  { rewrite js_nth_lookup, Hrl2 by done. by apply list_lookup_insert_eq. }
  assert (currentHeight e index = contributedHeight e index) as Hcur.
  { unfold contributedHeight. rewrite Hpage, Hseg.
    by apply currentHeight_pageHeight. }
  exists e1, e2. split; [|split; [|split; [exact Hpage1|split; [exact Hpage2|]]]].
  - unfold observerCallback. rewrite Hhide.
    destruct Hlow as [-> | Hle]; [done|].
    apply Qle_bool_iff in Hle. rewrite Hle. by rewrite orb_true_r.
  - unfold observerCallback. rewrite Hhigh1. simpl.
    destruct (Qle_bool (ratioOf high) INTERSECTION_THRESHOLD) eqn:Hle.
    + apply Qle_bool_iff in Hle. by apply Qlt_not_le in Hhigh2.
    + exact Hshow.
  - split; [|split; [|split; [|split; [|split]]]].
    + intros pageData Hpd Hnz. unfold currentHeight. rewrite Hpd. simpl.
      unfold js_or. by destruct (Z.eqb_spec (ISubPage.height pageData) 0).
    + intros Hnone. unfold currentHeight. rewrite Hseg. simpl.
      replace (js_or (js_length seg) 0) with (js_length seg)
        by (unfold js_or; destruct (Z.eqb_spec (js_length seg) 0); lia).
      destruct Hnone as [-> | ->]; simpl; [lia | unfold js_or; simpl; lia].
    + rewrite <- Hcur. unfold contributedHeight. rewrite Hpage1.
      change (segmentListRef e1) with (segmentListRef e). by rewrite Hseg.
    + unfold contributedHeight at 1. rewrite Hpage2.
      replace (segmentListRef e2) with (segmentListRef e) by reflexivity. rewrite Hseg.
      rewrite <- Hcur, (currentHeight_pageHeight e index seg seg) by done. reflexivity.
    + intros k Hout. unfold getItemScrollTop.
      destruct (Z.ltb_spec k 0) as [|Hk]; [done|].
      change (renderList e1) with (<[p := Placeholder (currentHeight e index)]> (renderList e)).
      unfold js_length. rewrite length_insert.
      change (scrollTopLoop e1) with (scrollTopLoop e).
      rewrite (scrollTopLoop_replace e _ (Items content) seg k p); try done.
      * simpl. by rewrite (currentHeight_pageHeight e index content seg).
      * rewrite drop_0, Z.add_0_l.
        destruct (Z.lt_ge_cases k (itemsBefore (segmentListRef e) p)) as [|Hge]; [by left|].
        right. destruct (Z.le_gt_cases (itemsBefore (segmentListRef e) p + js_length seg) k)
          as [|Hlt]; [done|].
        exfalso. apply Hout. exists seg. split; [done | lia].
    + intros k. unfold getItemScrollTop.
      destruct (Z.ltb_spec k 0) as [|Hk]; [done|].
      change (scrollTopLoop e2) with (scrollTopLoop e).
      rewrite Hrl2. unfold js_length. rewrite length_insert.
      by rewrite (scrollTopLoop_alike e k _ (renderList e)) by (by eapply Forall2_alike_insert).
Qed.

(** ** C2: positions inside one page *)

Lemma sum_heights_shift (l : list Z) (a : Z) : fold_left Z.add l a = a + sum_heights l.
Proof.
  unfold sum_heights. revert a. induction l as [|x l IH]; intros a; cbn [fold_left]; [lia|].
  rewrite (IH (a + x)), (IH (0 + x)). lia.
Qed.

Lemma sum_heights_cons (x : Z) (l : list Z) : sum_heights (x :: l) = x + sum_heights l.
Proof. unfold sum_heights at 1. simpl. apply sum_heights_shift. Qed.

Lemma sum_heights_app (l1 l2 : list Z) :
  sum_heights (l1 ++ l2) = sum_heights l1 + sum_heights l2.
Proof.
  induction l1 as [|x l1 IH]; simpl; [by rewrite sum_heights_nil|].
  rewrite !sum_heights_cons, IH. lia.
Qed.

Lemma sum_heights_nonneg (l : list Z) : Forall (fun h => 0 ≤ h) l → 0 ≤ sum_heights l.
Proof.
  induction 1 as [|x l Hx _ IH]; [by rewrite sum_heights_nil|].
  rewrite sum_heights_cons. lia.
Qed.

Lemma sum_heights_pos (l : list Z) (k : nat) (h : Z) :
  Forall (fun h => 0 ≤ h) l → l !! k = Some h → h ≠ 0 → 0 < sum_heights l.
Proof.
  intros Hall. revert k. induction Hall as [|x l Hx Hall IH]; intros k Hk Hh; [done|].
  rewrite sum_heights_cons. pose proof (sum_heights_nonneg l Hall).
  destruct k as [|k]; simpl in Hk.
  - injection Hk as ->. lia.
  - specialize (IH k Hk Hh). lia.
Qed.

Lemma slice_0_take {A} (l : list A) (pos : Z) :
  0 ≤ pos → slice l 0 pos = take (Z.to_nat pos) l.
Proof.
  intros Hpos. unfold slice. simpl.
  destruct (Z.ltb_spec pos 0); [lia|].
  rewrite (Z.min_l 0) by (unfold js_length; lia). rewrite Z.sub_0_r.
  change (drop (Z.to_nat 0) l) with l.
  destruct (Z.le_gt_cases pos (js_length l)).
  - by rewrite Z.min_l by done.
  - rewrite Z.min_r by lia. unfold js_length in *.
    rewrite Nat2Z.id. rewrite (take_ge l (length l)) by lia.
    by rewrite (take_ge l (Z.to_nat pos)) by lia.
Qed.

(** What [locateInPage] adds to [scrollTop], by the guard of line 408. *)
Lemma locateInPage_added {A} (e : Engine A) pageIdx page pos :
  0 ≤ pos →
  (locateInPage e pageIdx page pos).1.2 =
    if hasItemHeight e pageIdx page pos then
      sum_heights (take (Z.to_nat pos)
        (default [] (ISubPage.items <$> subPageMapRef e !! Z.of_nat pageIdx)))
    else guessItemHeight e * pos.
Proof.
  intros Hpos. unfold locateInPage, hasItemHeight.
  destruct page as [content|h]; [|done].
  destruct (subPageMapRef e !! Z.of_nat pageIdx) as [pageData|]; [|done]. simpl.
  destruct (js_length (ISubPage.items pageData) >? pos); [|done]. simpl.
  by rewrite slice_0_take.
Qed.

Lemma hasItemHeight_mono {A} (e : Engine A) pageIdx page pos pos' :
  pos ≤ pos' → hasItemHeight e pageIdx page pos' = true →
  hasItemHeight e pageIdx page pos = true.
Proof.
  unfold hasItemHeight. destruct page; [|done].
  destruct (subPageMapRef e !! Z.of_nat pageIdx); [|done]. lia.
Qed.

(** Inside one page, when the guard of line 408 does not change between
    the two positions, the later one is located further down by the sum of
    the heights in between. *)
Lemma locateInPage_monotone {A} (e : Engine A) pageIdx page (pos pos' : Z) :
  0 ≤ pos < pos' →
  0 ≤ guessItemHeight e →
  heightsNonneg e pageIdx →
  (hasItemHeight e pageIdx page pos' = true ∨ hasItemHeight e pageIdx page pos = false) →
  (locateInPage e pageIdx page pos).1.2 ≤ (locateInPage e pageIdx page pos').1.2 ∧
  ((∃ k, pos ≤ k < pos' ∧ itemHeightAt e pageIdx page k ≠ 0) →
   (locateInPage e pageIdx page pos).1.2 < (locateInPage e pageIdx page pos').1.2).
Proof.
  intros Hpos Hguess Hnn Hguard.
  rewrite !locateInPage_added by lia.
  destruct Hguard as [Hj | Hi].
  - pose proof (hasItemHeight_mono e pageIdx page pos pos' ltac:(lia) Hj) as Hi.
    rewrite Hi, Hj.
    assert (∃ pageData, subPageMapRef e !! Z.of_nat pageIdx = Some pageData ∧
                        pos' < js_length (ISubPage.items pageData)) as (pageData & Hpd & Hlen).
    { unfold hasItemHeight in Hj. destruct page; [|done].
      destruct (subPageMapRef e !! Z.of_nat pageIdx) as [pd|]; [|done].
      exists pd. split; [done | lia]. }
    rewrite Hpd. simpl. specialize (Hnn pageData Hpd).
    set (its := ISubPage.items pageData) in *.
    replace (Z.to_nat pos') with (Z.to_nat pos + Z.to_nat (pos' - pos))%nat by lia.
    rewrite <- take_take_drop, sum_heights_app.
    assert (Forall (fun h => 0 ≤ h) (take (Z.to_nat (pos' - pos)) (drop (Z.to_nat pos) its)))
      as Hmid by (by apply Forall_take, Forall_drop).
    pose proof (sum_heights_nonneg _ Hmid). split; [lia|].
    intros (k & Hk & Hnz). unfold itemHeightAt in Hnz.
    rewrite (hasItemHeight_mono e pageIdx page k pos' ltac:(lia) Hj), Hpd in Hnz.
    simpl in Hnz. fold its in Hnz. rewrite js_nth_lookup in Hnz by lia.
    destruct (its !! Z.to_nat k) as [h|] eqn:Hh; [|done]. simpl in Hnz.
    enough (0 < sum_heights (take (Z.to_nat (pos' - pos)) (drop (Z.to_nat pos) its))) by lia.
    apply (sum_heights_pos _ (Z.to_nat k - Z.to_nat pos) h Hmid); [|done].
    rewrite lookup_take_lt by lia. rewrite lookup_drop. rewrite <- Hh. f_equal. lia.
  - assert (hasItemHeight e pageIdx page pos' = false) as Hj.
    { destruct (hasItemHeight e pageIdx page pos') eqn:Hj; [|done].
      by rewrite (hasItemHeight_mono e pageIdx page pos pos' ltac:(lia) Hj) in Hi. }
    rewrite Hi, Hj. split; [nia|].
    intros (k & Hk & Hnz). unfold itemHeightAt in Hnz.
    assert (hasItemHeight e pageIdx page k = false) as Hkf.
    { destruct (hasItemHeight e pageIdx page k) eqn:Hkt; [|done].
      by rewrite (hasItemHeight_mono e pageIdx page pos k ltac:(lia) Hkt) in Hi. }
    rewrite Hkf in Hnz. nia.
Qed.

(** Every item of page [p] is located at a common base plus what
    [locateInPage] adds for its position in the page. *)
Lemma getItemScrollTop_inPage {A} (e : Engine A) (p : nat) (page : VirtualListSegment A) :
  renderList e !! p = Some page →
  ∃ base, ∀ index,
    inPage (segmentListRef e) p index →
    IItemScrollTop.scrollTop (getItemScrollTop e index)
    = base + (locateInPage e p page (index - itemsBefore (segmentListRef e) p)).1.2.
Proof.
  intros Hpage.
  destruct (segmentListRef e !! p) as [seg|] eqn:Hseg.
  - destruct (scrollTopLoop_found e page seg p (renderList e) 0%nat (headerHeightRef e) 0 0
                Hpage Hseg) as [base Hbase].
    exists base. intros index (seg' & Hseg'' & Hin).
    rewrite Hseg in Hseg''. injection Hseg'' as <-.
    assert (0 ≤ itemsBefore (segmentListRef e) p) as Hnn.
    { unfold itemsBefore. generalize (take p (segmentListRef e)).
      intros l. induction l; simpl; unfold js_length in *; lia. }
    unfold getItemScrollTop. destruct (Z.ltb_spec index 0); [lia|].
    rewrite Hbase by (rewrite drop_0; lia).
    rewrite drop_0, Z.add_0_l. simpl.
    by destruct (locateInPage _ _ _ _) as [[height added] rendered].
  - exists 0. intros index (seg' & Hseg' & _). congruence.
Qed.

(** C2 (as amended). Take two items i < j of the same page, a guess and
    measured item heights that are not negative, and a page for which the
    guard of line 408 answers alike at both positions (the page is a
    placeholder, or it has no record, or its record holds a measured height
    for j, or it holds none for i).  Then item j is located at or below
    item i, and strictly below when a height between them, from i up to but
    not including j, is not 0: the measured height where the guard holds,
    the guess otherwise. *)
Theorem getItemScrollTop_monotone {A} (e : Engine A) (p : nat)
    (page : VirtualListSegment A) (i j : Z) :
  renderList e !! p = Some page →
  inPage (segmentListRef e) p i →
  inPage (segmentListRef e) p j →
  i < j →
  0 ≤ guessItemHeight e →
  heightsNonneg e p →
  (hasItemHeight e p page (j - itemsBefore (segmentListRef e) p) = true ∨
   hasItemHeight e p page (i - itemsBefore (segmentListRef e) p) = false) →
  IItemScrollTop.scrollTop (getItemScrollTop e i)
    ≤ IItemScrollTop.scrollTop (getItemScrollTop e j) ∧
  ((∃ k, i ≤ k < j ∧
         itemHeightAt e p page (k - itemsBefore (segmentListRef e) p) ≠ 0) →
   IItemScrollTop.scrollTop (getItemScrollTop e i)
     < IItemScrollTop.scrollTop (getItemScrollTop e j)).
Proof.
  intros Hpage Hi Hj Hij Hguess Hnn Hguard.
  destruct (getItemScrollTop_inPage e p page Hpage) as [base Hbase].
  rewrite (Hbase i Hi), (Hbase j Hj).
  destruct Hi as (seg & Hseg & Hi).
  set (start := itemsBefore (segmentListRef e) p) in *.
  destruct (locateInPage_monotone e p page (i - start) (j - start) ltac:(lia) Hguess Hnn
              Hguard) as [Hle Hlt].
  split; [lia|].
  intros (k & Hk & Hnz). enough ((locateInPage e p page (i - start)).1.2
                                  < (locateInPage e p page (j - start)).1.2) by lia.
  apply Hlt. exists (k - start). split; [lia | done].
Qed.

(** C2 as stated fails: in [partlyMeasured] items 1 and 2 lie in the same
    page, item 1 is located at 120 (the measured height of item 0) and item
    2 at 100 (twice the guess). *)
Lemma partlyMeasured_not_monotone :
  inPage (segmentListRef partlyMeasured) 0 1 ∧
  inPage (segmentListRef partlyMeasured) 0 2 ∧
  1 < 2 ∧
  IItemScrollTop.scrollTop (getItemScrollTop partlyMeasured 1) = 120 ∧
  IItemScrollTop.scrollTop (getItemScrollTop partlyMeasured 2) = 100 ∧
  ¬ (IItemScrollTop.scrollTop (getItemScrollTop partlyMeasured 2)
       >= IItemScrollTop.scrollTop (getItemScrollTop partlyMeasured 1)).
Proof.
  assert (IItemScrollTop.scrollTop (getItemScrollTop partlyMeasured 1) = 120) as H1
    by (vm_compute; reflexivity).
  assert (IItemScrollTop.scrollTop (getItemScrollTop partlyMeasured 2) = 100) as H2
    by (vm_compute; reflexivity).
  split; [|split; [|split; [lia|split; [exact H1|split; [exact H2|]]]]].
  - exists [0; 1; 2]%nat. split; [reflexivity | vm_compute; split; [discriminate | reflexivity]].
  - exists [0; 1; 2]%nat. split; [reflexivity | vm_compute; split; [discriminate | reflexivity]].
  - rewrite H1, H2. lia.
Qed.

(** ** C7 and C8: the navigator *)

(** C7 (as amended). When the scroll view answers [info] and the located
    span [scrollTop, scrollTop + height] of the item lies inside the
    viewport [info.scrollTop, info.scrollTop + info.height],
    [scrollIntoView] returns a boolean and none of the events of the run
    asks the scroll container to scroll; the boolean is [true] exactly when
    the caller's [onScrollToEnd], if there is one, returns: when it throws,
    the [catch] block answers [false]. *)
Theorem scrollIntoView_in_view {A} (P : Platform) (e : Engine A) (index offsetTop : Z)
    (t : list Event) (info : ScrollInfo.t) :
  queryScrollViewInfo P t = Returned info →
  ScrollInfo.scrollTop info ≤ IItemScrollTop.scrollTop (getItemScrollTop e index) →
  IItemScrollTop.scrollTop (getItemScrollTop e index)
    + IItemScrollTop.height (getItemScrollTop e index)
    ≤ ScrollInfo.scrollTop info + ScrollInfo.height info →
  ∃ b t', scrollIntoView P e index offsetTop t = (Returned b, t ++ t') ∧
          Forall (fun ev => isScroll ev = false) t' ∧
          (b = true ↔
           ∀ callback, onScrollToEnd P = Some callback →
                       callback (t ++ [EvScrollViewInfo (Returned info)]) = Returned tt).
Proof.
  intros Hinfo Htop Hbottom.
  unfold scrollIntoView. run_unfold. rewrite Hinfo.
  destruct (Z.leb_spec (ScrollInfo.scrollTop info)
              (IItemScrollTop.scrollTop (getItemScrollTop e index))); [|lia].
  destruct (Z.geb_spec (ScrollInfo.scrollTop info + ScrollInfo.height info)
              (IItemScrollTop.scrollTop (getItemScrollTop e index)
               + IItemScrollTop.height (getItemScrollTop e index))); [|lia].
  simpl. destruct (onScrollToEnd P) as [callback|] eqn:Hcb.
  - destruct (callback (t ++ [EvScrollViewInfo (Returned info)])) as [[]|] eqn:Hcall.
    + exists true, [EvScrollViewInfo (Returned info); EvOnScrollToEnd (Returned tt)].
      split; [by rewrite <- app_assoc|]. split; [by repeat constructor|].
      split; [|done]. intros _ callback' [= <-]. exact Hcall.
    + exists false, [EvScrollViewInfo (Returned info); EvOnScrollToEnd Thrown].
      split; [by rewrite <- app_assoc|]. split; [by repeat constructor|].
      split; [done|]. intros Hreturns. specialize (Hreturns callback eq_refl). congruence.
  - exists true, [EvScrollViewInfo (Returned info)].
    split; [done|]. split; [by repeat constructor|].
    split; [|done]. intros _ callback' [=].
Qed.

(** C7 as stated fails when the caller's callback throws: with
    [throwingCallbackPlatform] item 1 of [sampleEngine] lies inside the
    viewport, [scrollIntoView] calls [onScrollToEnd] inside its [try], the
    callback throws, and the result is [false]. *)
Lemma scrollIntoView_callback_throws :
  queryScrollViewInfo throwingCallbackPlatform [] = Returned (ScrollInfo.mk 400 5000 0) ∧
  0 ≤ IItemScrollTop.scrollTop (getItemScrollTop sampleEngine 1) ∧
  IItemScrollTop.scrollTop (getItemScrollTop sampleEngine 1)
    + IItemScrollTop.height (getItemScrollTop sampleEngine 1) ≤ 0 + 400 ∧
  scrollIntoView throwingCallbackPlatform sampleEngine 1 0 []
  = (Returned false,
     [EvScrollViewInfo (Returned (ScrollInfo.mk 400 5000 0)); EvOnScrollToEnd Thrown]) ∧
  ¬ (∃ t', scrollIntoView throwingCallbackPlatform sampleEngine 1 0 [] = (Returned true, t')).
Proof.
  assert (scrollIntoView throwingCallbackPlatform sampleEngine 1 0 []
          = (Returned false,
             [EvScrollViewInfo (Returned (ScrollInfo.mk 400 5000 0)); EvOnScrollToEnd Thrown]))
    as Hrun by (vm_compute; reflexivity).
  split; [reflexivity|]. split; [vm_compute; discriminate|].
  split; [vm_compute; discriminate|]. split; [exact Hrun|].
  intros [t' Htrue]. rewrite Hrun in Htrue. discriminate Htrue.
Qed.

(** C8 (as amended). Whatever the index and the offset, and whatever the
    collaborators answer, as long as each call of the run settles (it
    returns, throws or rejects, or, for the geometry query of
    [checkElementExists], its timer fires), [scrollTo] returns a boolean and
    throws nothing; the boolean is [false] whenever a collaborator failed
    during the run: a call threw or rejected, the scroll node or its
    [scrollTo] was missing, or [scrollToElement] reported failure.  A query
    that is never answered is no run of [Run.M]: only [checkElementExists]
    has a timer. *)
Theorem scrollTo_returns_boolean {A} (P : Platform) (e : Engine A) (index offsetTop : Z)
    (t : list Event) :
  ∃ b t', scrollTo P e index offsetTop t = (Returned b, t ++ t') ∧
          (Exists (fun ev => collaboratorFailed ev = true) t' → b = false).
Proof.
  unfold scrollTo.
  destruct (isCompleted e); simpl.
  2: { exists false, []. by rewrite app_nil_r. }
  destruct (findPage (segmentListRef e) 0 0 index) as [pageIndex itemIndexInPage].
  run_unfold. repeat run_step P; simpl; run_close.
Qed.

(** C8 as stated fails for a geometry query that times out: with
    [timeoutPlatform] both existence checks time out, the jump to the
    estimate goes through, and [scrollTo] reports success. *)
Lemma scrollTo_timeout_reports_success :
  ∃ t', scrollTo timeoutPlatform partlyMeasured 1 0 [] = (Returned true, t') ∧
        Exists (fun ev => timedOut ev = true) t' ∧
        ¬ (Exists (fun ev => collaboratorFailed ev = true ∨ timedOut ev = true) t' →
           Returned (X:=bool) true = Returned false).
Proof.
  eexists. split; [vm_compute; reflexivity|].
  split; [by apply Exists_cons_hd|].
  intros Hclaim. discriminate Hclaim. apply Exists_cons_hd. by right.
Qed.

(** ** C9: the two watcher sets *)

(** The first turn of an installation keeps the two sets apart: it only
    marks an index that is in neither. *)
Lemma createIntersectionObserver_disjoint {A} (s : EventLoop A) (index retry : Z) :
  dom (observersRef (engine s)) ## observerCreatingRef (engine s) →
  dom (observersRef (engine (createIntersectionObserver s index retry)))
    ## observerCreatingRef (engine (createIntersectionObserver s index retry)).
Proof.
  intros Hinv. unfold createIntersectionObserver.
  destruct (decide (index ∈ dom (observersRef (engine s)))) as [Hin|Hout].
  { by rewrite (bool_decide_eq_true_2 _ Hin). }
  rewrite (bool_decide_eq_false_2 _ Hout).
  destruct (bool_decide (index ∈ observerCreatingRef (engine s))); [done|]. simpl.
  destruct ((index >=? js_length (segmentListRef (engine s))) || (index <? 0)); [done|].
  simpl. set_solver.
Qed.

Lemma step_disjoint {A} (s s' : EventLoop A) :
  step s s' →
  dom (observersRef (engine s)) ## observerCreatingRef (engine s) →
  dom (observersRef (engine s')) ## observerCreatingRef (engine s').
Proof.
  intros Hstep Hinv.
  destruct Hstep as [s index|s before p after answer created Haw
                    |s before p after Htm|s|s e' Ho Hc].
  - by apply createIntersectionObserver_disjoint.
  - unfold createIntersectionObserver_resume.
    destruct answer as [elementExists|]; [|done]. simpl.
    destruct (negb elementExists && (retryCount p <? 3)); simpl; [set_solver|].
    destruct (negb elementExists); simpl; [set_solver|].
    destruct created; simpl; [|set_solver].
    rewrite dom_insert_L. set_solver.
  - by apply createIntersectionObserver_disjoint.
  - simpl. set_solver.
  - simpl. by rewrite Ho, Hc.
Qed.

(** C9. In every state the event loop reaches, turn by turn, from an engine
    with empty watcher sets (the turns are the calls of
    [createIntersectionObserver], the resumption of a suspended one with any
    answer, a retry timer, [clearObservers], and anything else the engine
    does), no page index is both in [observersRef] and in
    [observerCreatingRef]; and a call of [createIntersectionObserver] for an
    index already in one of them changes nothing and suspends nothing. *)
Theorem watcher_sets_disjoint {A} (s : EventLoop A) :
  reachable s →
  (∀ index, ¬ (index ∈ dom (observersRef (engine s)) ∧
               index ∈ observerCreatingRef (engine s))) ∧
  (∀ index retry,
     index ∈ dom (observersRef (engine s)) ∨ index ∈ observerCreatingRef (engine s) →
     createIntersectionObserver s index retry = s).
Proof.
  intros (s0 & (Hobs & Hcre & _ & _) & Hsteps). split.
  - assert (dom (observersRef (engine s0)) ## observerCreatingRef (engine s0)) as Hinv
      by (rewrite Hobs, Hcre; set_solver).
    clear Hobs Hcre.
    induction Hsteps as [s|s1 s2 s3 Hstep _ IH]; [set_solver|].
    apply IH. by eapply step_disjoint.
  - intros index retry Hin. unfold createIntersectionObserver.
    destruct Hin as [Hin|Hin].
    + by rewrite (bool_decide_eq_true_2 _ Hin).
    + rewrite (bool_decide_eq_true_2 _ Hin). by rewrite orb_true_r.
Qed.

(** ** The theorems at sample states *)

Lemma getItemScrollTop_negative_witness :
  getItemScrollTop sampleEngine (-1) = IItemScrollTop.mk 0 0 false 0 ∧
  IItemScrollTop.scrollTop (getItemScrollTop sampleEngine (-1)) = 0.
Proof. apply (getItemScrollTop_negative sampleEngine (-1)). lia. Defined.

Lemma getItemScrollTop_first_item_witness :
  IItemScrollTop.scrollTop (getItemScrollTop sampleEngine 0) = 30.
Proof.
  apply (getItemScrollTop_first_item sampleEngine [0; 1; 2; 3; 4; 5; 6; 7]%nat).
  - discriminate.
  - reflexivity.
  - repeat constructor; discriminate.
Defined.

Lemma getItemScrollTop_monotone_witness :
  IItemScrollTop.scrollTop (getItemScrollTop sampleEngine 0)
    ≤ IItemScrollTop.scrollTop (getItemScrollTop sampleEngine 2) ∧
  ((∃ k, 0 ≤ k < 2 ∧
         itemHeightAt sampleEngine 0 (Items [0; 1; 2]%nat)
           (k - itemsBefore (segmentListRef sampleEngine) 0) ≠ 0) →
   IItemScrollTop.scrollTop (getItemScrollTop sampleEngine 0)
     < IItemScrollTop.scrollTop (getItemScrollTop sampleEngine 2)).
Proof.
  apply (getItemScrollTop_monotone sampleEngine 0 (Items [0; 1; 2]%nat) 0 2).
  - reflexivity.
  - exists [0; 1; 2]%nat. split; [reflexivity | vm_compute; split; [discriminate | reflexivity]].
  - exists [0; 1; 2]%nat. split; [reflexivity | vm_compute; split; [discriminate | reflexivity]].
  - lia.
  - vm_compute. discriminate.
  - intros pageData Hpd. vm_compute in Hpd. injection Hpd as <-.
    repeat constructor; vm_compute; discriminate.
  - left. reflexivity.
Defined.

Lemma swap_keeps_height_witness :
  ∃ e1 e2,
    observerCallback sampleEngine 0 signalOut = Some e1 ∧
    observerCallback e1 0 signalIn = Some e2 ∧
    js_nth (renderList e1) 0 = Some (Placeholder (currentHeight sampleEngine 0)) ∧
    js_nth (renderList e2) 0 = Some (Items [0; 1; 2]%nat) ∧
    (∀ pageData, subPageMapRef sampleEngine !! 0 = Some pageData →
       ISubPage.height pageData ≠ 0 →
       currentHeight sampleEngine 0 = ISubPage.height pageData) ∧
    ((subPageMapRef sampleEngine !! 0 = None ∨
      ISubPage.height <$> subPageMapRef sampleEngine !! 0 = Some 0) →
       currentHeight sampleEngine 0
       = js_length [0; 1; 2]%nat * guessItemHeight sampleEngine) ∧
    contributedHeight e1 0 = contributedHeight sampleEngine 0 ∧
    contributedHeight e2 0 = contributedHeight sampleEngine 0 ∧
    (∀ k, ¬ inPage (segmentListRef sampleEngine) (Z.to_nat 0) k →
       getItemScrollTop e1 k = getItemScrollTop sampleEngine k) ∧
    (∀ k, getItemScrollTop e2 k = getItemScrollTop sampleEngine k).
Proof.
  apply (swap_keeps_height sampleEngine 0 [0; 1; 2]%nat [0; 1; 2]%nat signalOut signalIn).
  - reflexivity.
  - reflexivity.
  - left. reflexivity.
  - split; reflexivity.
Defined.

Lemma scrollIntoView_in_view_witness :
  ∃ b t', scrollIntoView presentPlatform sampleEngine 1 0 [] = (Returned b, [] ++ t') ∧
          Forall (fun ev => isScroll ev = false) t' ∧
          (b = true ↔
           ∀ callback, onScrollToEnd presentPlatform = Some callback →
                       callback ([] ++ [EvScrollViewInfo (Returned (ScrollInfo.mk 400 5000 0))])
                       = Returned tt).
Proof.
  apply (scrollIntoView_in_view presentPlatform sampleEngine 1 0 []
           (ScrollInfo.mk 400 5000 0)).
  - reflexivity.
  - vm_compute. discriminate.
  - vm_compute. discriminate.
Defined.

Lemma watcher_sets_disjoint_witness :
  (∀ index, ¬ (index ∈ dom (observersRef (engine sampleLoop)) ∧
               index ∈ observerCreatingRef (engine sampleLoop))) ∧
  (∀ index retry,
     index ∈ dom (observersRef (engine sampleLoop))
     ∨ index ∈ observerCreatingRef (engine sampleLoop) →
     createIntersectionObserver sampleLoop index retry = sampleLoop).
Proof.
  apply (watcher_sets_disjoint sampleLoop).
  exists (mkLoop sampleEngine [] []). split.
  - repeat split; reflexivity.
  - eapply rtc_l; [apply step_request | apply rtc_refl].
Defined.

(** * Further properties *)

(** ** The segmenter, for every list and every size *)

(** Segmenting and concatenating gives the list back for every list and
    every size: also for the empty list and for a size of 0 or less. *)
Theorem getSegmentList_concat_any {A} (lst : list A) (segmentNum : Z) :
  concat (getSegmentList lst segmentNum) = lst.
Proof.
  unfold getSegmentList.
  destruct (Z.eqb_spec (js_length lst) 0) as [Hz|Hnz].
  { destruct lst; [done | unfold js_length in Hz; simpl in Hz; lia]. }
  destruct (Z.leb_spec segmentNum 0) as [Hle|Hgt].
  { simpl. by rewrite app_nil_r. }
  assert (0 < js_length lst) as Hlen by (unfold js_length in *; lia).
  pose proof (ceil_div_bounds (js_length lst) segmentNum Hgt) as [Hlo Hhi].
  set (totalPages := ceil_div (js_length lst) segmentNum) in *.
  assert (0 ≤ totalPages) as Hn by nia.
  rewrite <- (Z2Nat.id totalPages Hn).
  rewrite segments_prefix by (rewrite ?Z2Nat.id; lia).
  rewrite Z2Nat.id by lia. rewrite Z.min_r by lia.
  unfold js_length. rewrite Nat2Z.id. apply firstn_all.
Qed.

(** The shape of the table: for a non-empty list and a size of at least 1
    there are ceil(L / size) pages, every page holds at least one and at
    most [segmentNum] items, and every page but the last exactly
    [segmentNum]. *)
Theorem getSegmentList_shape {A} (lst : list A) (segmentNum : Z) :
  lst ≠ [] → 1 ≤ segmentNum →
  let pages := getSegmentList lst segmentNum in
  (js_length pages - 1) * segmentNum < js_length lst ≤ js_length pages * segmentNum ∧
  ∀ (i : nat) seg, pages !! i = Some seg →
    1 ≤ js_length seg ≤ segmentNum ∧
    ((S i < length pages)%nat → js_length seg = segmentNum).
Proof.
  intros Hne Hs pages. split.
  - unfold pages. rewrite getSegmentList_length by (done || lia).
    apply ceil_div_bounds. lia.
  - intros i seg Hi. split.
    + rewrite (getSegmentList_seg_length lst segmentNum i seg) by (done || lia).
      destruct (getSegmentList_lookup lst segmentNum i seg) as [Hlt _]; [done|lia|done|].
      lia.
    + intros Hlast. by eapply getSegmentList_full_pages; [| |exact Hi|]; [done|lia|].
Qed.

Lemma getSegmentList_shape_witness :
  let pages := getSegmentList [1; 2; 3; 4; 5] 2 in
  (js_length pages - 1) * 2 < js_length [1; 2; 3; 4; 5] ≤ js_length pages * 2 ∧
  ∀ (i : nat) seg, pages !! i = Some seg →
    1 ≤ js_length seg ≤ 2 ∧ ((S i < length pages)%nat → js_length seg = 2).
Proof. apply (getSegmentList_shape [1; 2; 3; 4; 5] 2); [discriminate | lia]. Defined.

(** Item [i] of the list is item [i mod segmentNum] of page
    [i / segmentNum]. *)
Theorem getSegmentList_item {A} (lst : list A) (segmentNum : Z) (i : nat) :
  1 ≤ segmentNum → (i < length lst)%nat →
  ∃ seg, getSegmentList lst segmentNum !! Z.to_nat (Z.of_nat i / segmentNum) = Some seg ∧
         seg !! Z.to_nat (Z.of_nat i mod segmentNum) = lst !! i.
Proof.
  intros Hs Hi.
  assert (lst ≠ []) as Hne by (intros ->; simpl in Hi; lia).
  pose proof (Z.div_mod (Z.of_nat i) segmentNum ltac:(lia)) as Hdm.
  pose proof (Z.mod_pos_bound (Z.of_nat i) segmentNum ltac:(lia)) as Hm.
  assert (0 ≤ Z.of_nat i / segmentNum) as Hq by (apply Z.div_pos; lia).
  set (q := Z.of_nat i / segmentNum) in *. set (r := Z.of_nat i mod segmentNum) in *.
  pose proof (getSegmentList_length lst segmentNum Hne ltac:(lia)) as Hlen.
  pose proof (ceil_div_bounds (js_length lst) segmentNum ltac:(lia)) as [Hlo Hhi].
  assert (is_Some (getSegmentList lst segmentNum !! Z.to_nat q)) as [seg Hseg].
  { apply lookup_lt_is_Some. unfold js_length in *. nia. }
  exists seg. split; [done|].
  destruct (getSegmentList_lookup lst segmentNum (Z.to_nat q) seg Hne ltac:(lia) Hseg)
    as [Hlt ->].
  rewrite Z2Nat.id in * by lia.
  rewrite lookup_take_lt by (unfold js_length in *; lia).
  rewrite lookup_drop. f_equal. nia.
Qed.

Lemma getSegmentList_item_witness :
  ∃ seg, getSegmentList [10; 11; 12; 13; 14] 2 !! Z.to_nat (Z.of_nat 3 / 2) = Some seg ∧
         seg !! Z.to_nat (Z.of_nat 3 mod 2) = [10; 11; 12; 13; 14] !! 3%nat.
Proof. apply (getSegmentList_item [10; 11; 12; 13; 14] 2 3); [lia | simpl; lia]. Defined.

(** The smart size is at least 10 and keeps the table balanced: there are
    never more pages than the page size plus two. *)
Theorem smart_balanced {A} (lst : list A) :
  10 ≤ resolveSegmentNum lst Smart ∧
  js_length (createSegmentList getSegmentList lst Smart) ≤ resolveSegmentNum lst Smart + 2.
Proof.
  split; [simpl; lia|].
  destruct (decide (lst = [])) as [->|Hne]; [vm_compute; discriminate|].
  unfold createSegmentList.
  set (m := resolveSegmentNum lst Smart).
  assert (10 ≤ m) as Hm by (unfold m; simpl; lia).
  rewrite getSegmentList_length by (done || lia).
  pose proof (ceil_div_bounds (js_length lst) m ltac:(lia)) as [Hlo _].
  assert (0 ≤ js_length lst) as HL by (unfold js_length; lia).
  pose proof (Z.sqrt_spec (js_length lst) HL) as Hsq.
  pose proof (Z.sqrt_nonneg (js_length lst)) as Hr.
  unfold m in *. simpl in *.
  set (r := Z.sqrt (js_length lst)) in *.
  replace (Z.succ r * Z.succ r) with (r * r + 2 * r + 1) in Hsq by lia.
  set (n := ceil_div (js_length lst) (Z.max 10 r)) in *.
  destruct (Z.max_spec 10 r) as [[Hlt Hmax]|[Hge Hmax]]; rewrite Hmax in *.
  - destruct (Z.le_gt_cases n (r + 2)) as [|Hbig]; [done|].
    assert ((r + 2) * r ≤ (n - 1) * r) by nia. lia.
  - assert (r * r ≤ 10 * r) by nia. assert (10 * r ≤ 100) by lia. lia.
Qed.

(** ** The position of an item, in closed form *)

Lemma itemsBefore_nonneg {A} (segments : list (list A)) (p : nat) :
  0 ≤ itemsBefore segments p.
Proof.
  unfold itemsBefore. generalize (take p segments).
  intros l. induction l; simpl; unfold js_length in *; lia.
Qed.

Lemma contributedHeight_lookup {A} (e : Engine A) (q : nat) page seg :
  renderList e !! q = Some page → segmentListRef e !! q = Some seg →
  contributedHeight e (Z.of_nat q) = pageHeight e q page (js_length seg).
Proof.
  intros Hpage Hseg. unfold contributedHeight.
  rewrite !js_nth_lookup, !Nat2Z.id by lia. by rewrite Hpage, Hseg.
Qed.

Lemma scrollTopLoop_inPage {A} (e : Engine A) (index : Z) (page : VirtualListSegment A)
    (seg : list A) (d : nat) :
  ∀ pageIdx scrollTop curIdx segIdx,
    renderList e !! (pageIdx + d)%nat = Some page →
    segmentListRef e !! (pageIdx + d)%nat = Some seg →
    curIdx + itemsBefore (drop pageIdx (segmentListRef e)) d ≤ index
      < curIdx + itemsBefore (drop pageIdx (segmentListRef e)) d + js_length seg →
    scrollTopLoop e index (drop pageIdx (renderList e)) pageIdx scrollTop curIdx segIdx
    = let '(height, added, rendered) :=
        locateInPage e (pageIdx + d) page
          (index - (curIdx + itemsBefore (drop pageIdx (segmentListRef e)) d)) in
      (height,
       scrollTop
       + foldr (fun q acc => contributedHeight e (Z.of_nat q) + acc) 0 (seq pageIdx d)
       + added,
       rendered, segIdx + Z.of_nat d).
Proof.
  induction d as [|d IH]; intros pageIdx scrollTop curIdx segIdx Hpage Hseg Hin.
  - rewrite Nat.add_0_r in *. rewrite itemsBefore_0 in *.
    rewrite (drop_S _ _ _ Hpage). simpl. rewrite Hseg.
    destruct (Z.ltb_spec (curIdx + js_length seg - 1) index); [lia|].
    rewrite !Z.add_0_r. reflexivity.
  - assert (is_Some (renderList e !! pageIdx)) as [p0 Hp0].
    { apply lookup_lt_is_Some. apply lookup_lt_Some in Hpage. lia. }
    assert (is_Some (segmentListRef e !! pageIdx)) as [seg0 Hseg0].
    { apply lookup_lt_is_Some. apply lookup_lt_Some in Hseg. lia. }
    replace (pageIdx + S d)%nat with (S pageIdx + d)%nat in * by lia.
    rewrite (itemsBefore_drop_S _ _ _ _ Hseg0) in *.
    pose proof (itemsBefore_nonneg (drop (S pageIdx) (segmentListRef e)) d) as Hnn.
    rewrite (drop_S _ _ _ Hp0). simpl. rewrite Hseg0.
    destruct (Z.ltb_spec (curIdx + js_length seg0 - 1) index); [|lia].
    rewrite (IH (S pageIdx)) by (done || lia).
    rewrite (contributedHeight_lookup e pageIdx p0 seg0 Hp0 Hseg0).
    replace (index - (curIdx + js_length seg0 + itemsBefore (drop (S pageIdx) (segmentListRef e)) d))
      with (index - (curIdx + (js_length seg0 + itemsBefore (drop (S pageIdx) (segmentListRef e)) d)))
      by lia.
    destruct (locateInPage _ _ _ _) as [[height added] rendered].
    repeat match goal with |- (_, _) = (_, _) => f_equal end; lia.
Qed.

(** An item of page [p] is located at the header height, plus what the
    pages before [p] add, plus what its position inside the page adds; its
    [pageIndex] is [p]. *)
Theorem getItemScrollTop_formula {A} (e : Engine A) (p : nat)
    (page : VirtualListSegment A) (index : Z) :
  renderList e !! p = Some page →
  inPage (segmentListRef e) p index →
  getItemScrollTop e index =
    let '(height, added, rendered) :=
      locateInPage e p page (index - itemsBefore (segmentListRef e) p) in
    IItemScrollTop.mk height (headerHeightRef e + contributedBefore e p + added)
      rendered (Z.of_nat p).
Proof.
  intros Hpage (seg & Hseg & Hin).
  pose proof (itemsBefore_nonneg (segmentListRef e) p) as Hnn.
  unfold getItemScrollTop. destruct (Z.ltb_spec index 0); [lia|].
  pose proof (scrollTopLoop_inPage e index page seg p 0%nat (headerHeightRef e) 0 0) as Hloop.
  rewrite !drop_0 in Hloop. simpl in Hloop. rewrite Hloop by (done || lia).
  unfold contributedBefore.
  destruct (locateInPage _ _ _ _) as [[height added] rendered].
  f_equal. apply lookup_lt_Some in Hpage. unfold js_length. lia.
Qed.

Lemma getItemScrollTop_formula_witness :
  getItemScrollTop sampleEngine 7 =
    let '(height, added, rendered) :=
      locateInPage sampleEngine 2 (Items [6; 7]%nat)
        (7 - itemsBefore (segmentListRef sampleEngine) 2) in
    IItemScrollTop.mk height
      (headerHeightRef sampleEngine + contributedBefore sampleEngine 2 + added)
      rendered (Z.of_nat 2).
Proof.
  apply (getItemScrollTop_formula sampleEngine 2 (Items [6; 7]%nat) 7).
  - reflexivity.
  - exists [6; 7]%nat. split; [reflexivity | vm_compute; split; [discriminate | reflexivity]].
Defined.

Lemma scrollTopLoop_past {A} (e : Engine A) (index : Z) (d : nat) :
  ∀ pageIdx scrollTop curIdx segIdx,
    length (renderList e) = (pageIdx + d)%nat →
    length (segmentListRef e) = (pageIdx + d)%nat →
    curIdx + itemsBefore (drop pageIdx (segmentListRef e)) d ≤ index →
    scrollTopLoop e index (drop pageIdx (renderList e)) pageIdx scrollTop curIdx segIdx
    = (0,
       scrollTop
       + foldr (fun q acc => contributedHeight e (Z.of_nat q) + acc) 0 (seq pageIdx d),
       false, segIdx + Z.of_nat d).
Proof.
  induction d as [|d IH]; intros pageIdx scrollTop curIdx segIdx Hrl Hsegs Hin.
  - rewrite drop_ge by lia. simpl.
    repeat match goal with |- (_, _) = (_, _) => f_equal end; lia.
  - assert (is_Some (renderList e !! pageIdx)) as [p0 Hp0]
      by (apply lookup_lt_is_Some; lia).
    assert (is_Some (segmentListRef e !! pageIdx)) as [seg0 Hseg0]
      by (apply lookup_lt_is_Some; lia).
    rewrite (itemsBefore_drop_S _ _ _ _ Hseg0) in Hin.
    pose proof (itemsBefore_nonneg (drop (S pageIdx) (segmentListRef e)) d) as Hnn.
    rewrite (drop_S _ _ _ Hp0). simpl. rewrite Hseg0.
    destruct (Z.ltb_spec (curIdx + js_length seg0 - 1) index); [|lia].
    rewrite (IH (S pageIdx)) by lia.
    rewrite (contributedHeight_lookup e pageIdx p0 seg0 Hp0 Hseg0).
    repeat match goal with |- (_, _) = (_, _) => f_equal end; lia.
Qed.

(** An index past the last item is located at the end of the content: the
    header height plus what all pages add, with height 0, not rendered, on
    the last page. *)
Theorem getItemScrollTop_past_end {A} (e : Engine A) (index : Z) :
  length (renderList e) = length (segmentListRef e) →
  totalItems (segmentListRef e) ≤ index →
  getItemScrollTop e index =
    IItemScrollTop.mk 0
      (headerHeightRef e + contributedBefore e (length (segmentListRef e)))
      false (js_length (segmentListRef e) - 1).
Proof.
  intros Hlen Hpast. unfold totalItems in Hpast.
  pose proof (itemsBefore_nonneg (segmentListRef e) (length (segmentListRef e))) as Hnn.
  unfold getItemScrollTop. destruct (Z.ltb_spec index 0); [lia|].
  pose proof (scrollTopLoop_past e index (length (segmentListRef e)) 0%nat
                (headerHeightRef e) 0 0) as Hloop.
  rewrite !drop_0 in Hloop. simpl in Hloop. rewrite Hloop by (done || lia).
  unfold contributedBefore, js_length. rewrite Hlen. f_equal. lia.
Qed.

Lemma getItemScrollTop_past_end_witness :
  getItemScrollTop sampleEngine 8 =
    IItemScrollTop.mk 0
      (headerHeightRef sampleEngine
       + contributedBefore sampleEngine (length (segmentListRef sampleEngine)))
      false (js_length (segmentListRef sampleEngine) - 1).
Proof.
  apply (getItemScrollTop_past_end sampleEngine 8); [reflexivity | vm_compute; discriminate].
Defined.

Lemma pageHeight_nonneg {A} (e : Engine A) (q : nat) page (seg : list A) :
  nonnegHeights e → renderList e !! q = Some page →
  0 ≤ pageHeight e q page (js_length seg).
Proof.
  intros (Hguess & Hph & Hrec) Hpage. unfold pageHeight.
  destruct page as [content|h]; [|by eapply Hph].
  destruct (subPageMapRef e !! Z.of_nat q) as [pageData|] eqn:Hpd; simpl.
  - destruct (Hrec _ _ Hpd) as [Hh _]. unfold js_or.
    destruct (ISubPage.height pageData =? 0); [unfold js_length; nia | done].
  - unfold js_length. nia.
Qed.

Lemma locateInPage_nonneg {A} (e : Engine A) (q : nat) page pos :
  nonnegHeights e → 0 ≤ pos → 0 ≤ (locateInPage e q page pos).1.2.
Proof.
  intros (Hguess & Hph & Hrec) Hpos. rewrite locateInPage_added by done.
  destruct (hasItemHeight e q page pos); [|nia].
  destruct (subPageMapRef e !! Z.of_nat q) as [pageData|] eqn:Hpd; simpl;
    [|by rewrite take_nil].
  apply sum_heights_nonneg, Forall_take. by destruct (Hrec _ _ Hpd).
Qed.

Lemma scrollTopLoop_lower_bound {A} (e : Engine A) (index : Z) :
  nonnegHeights e →
  ∀ pageIdx scrollTop curIdx segIdx,
    curIdx ≤ index →
    scrollTop ≤ (scrollTopLoop e index (drop pageIdx (renderList e)) pageIdx
                   scrollTop curIdx segIdx).1.1.2.
Proof.
  intros Hnn pageIdx.
  remember (length (renderList e) - pageIdx)%nat as n eqn:Hn.
  revert pageIdx Hn. induction n as [|n IH]; intros pageIdx Hn scrollTop curIdx segIdx Hcur.
  - rewrite drop_ge by lia. simpl. lia.
  - assert (is_Some (renderList e !! pageIdx)) as [p0 Hp0]
      by (apply lookup_lt_is_Some; lia).
    rewrite (drop_S _ _ _ Hp0). simpl.
    destruct (segmentListRef e !! pageIdx) as [seg0|]; [|simpl; lia].
    destruct (Z.ltb_spec (curIdx + js_length seg0 - 1) index).
    + pose proof (pageHeight_nonneg e pageIdx p0 seg0 Hnn Hp0).
      etrans; [|apply IH]; lia.
    + pose proof (locateInPage_nonneg e pageIdx p0 (index - curIdx) Hnn ltac:(lia)).
      destruct (locateInPage _ _ _ _) as [[height added] rendered]. simpl in *. lia.
Qed.

(** With heights that are not negative, no item with an index of 0 or more
    is located above the header: its [scrollTop] is at least the header
    height, whatever the state of the render list and of the records. *)
Theorem getItemScrollTop_lower_bound {A} (e : Engine A) (index : Z) :
  nonnegHeights e → 0 ≤ index →
  headerHeightRef e ≤ IItemScrollTop.scrollTop (getItemScrollTop e index).
Proof.
  intros Hnn Hindex. unfold getItemScrollTop.
  destruct (Z.ltb_spec index 0); [lia|].
  pose proof (scrollTopLoop_lower_bound e index Hnn 0%nat (headerHeightRef e) 0 0 Hindex)
    as Hlow.
  rewrite drop_0 in Hlow.
  destruct (scrollTopLoop _ _ _ _ _ _ _) as [[[height scrollTop] rendered] segIdx].
  simpl in *. lia.
Qed.

Lemma getItemScrollTop_lower_bound_witness :
  headerHeightRef sampleEngine ≤ IItemScrollTop.scrollTop (getItemScrollTop sampleEngine 4).
Proof.
  apply (getItemScrollTop_lower_bound sampleEngine 4); [|lia].
  split; [vm_compute; discriminate|]. split.
  - intros [|[|[|q]]] h Hq; vm_compute in Hq; try discriminate Hq.
    injection Hq as <-. vm_compute. discriminate.
  - intros k pageData Hk. unfold sampleEngine in Hk. cbn [subPageMapRef] in Hk.
    apply lookup_insert_Some in Hk as [[<- <-]|[_ Hk]].
    + split; [vm_compute; discriminate | repeat constructor; vm_compute; discriminate].
    + apply lookup_singleton_Some in Hk as [<- <-].
      split; [vm_compute; discriminate | constructor].
Defined.

(** ** The page of an item: the navigator and the position calculator *)





(** ** Placeholders in step with the records *)

Lemma currentHeight_set_renderList {A} (e : Engine A) rl index :
  currentHeight (set_renderList e rl) index = currentHeight e index.
Proof. reflexivity. Qed.

Lemma synced_hidePage {A} (e : Engine A) (index : Z) : synced e → synced (hidePage e index).
Proof.
  intros Hs. unfold hidePage.
  destruct (js_nth (renderList e) index) as [[content|h]|] eqn:Hpage; try done.
  destruct (js_nth_Some _ _ _ Hpage) as (Hi & Hpage' & _).
  intros q h Hq. rewrite currentHeight_set_renderList. simpl in Hq.
  destruct (decide (Z.to_nat index = q)) as [<-|Hne].
  - rewrite list_lookup_insert_eq in Hq by (by eapply lookup_lt_Some).
    injection Hq as <-. by rewrite Z2Nat.id.
  - rewrite list_lookup_insert_ne in Hq by done. by apply Hs.
Qed.

Lemma synced_showPage {A} (e e' : Engine A) (index : Z) :
  synced e → showPage e index = Some e' → synced e'.
Proof.
  intros Hs. unfold showPage, js_set.
  destruct (js_nth (renderList e) index) as [[content|h0]|] eqn:Hpage.
  - by intros [= <-].
  - destruct (js_nth_Some _ _ _ Hpage) as (Hi & Hpage' & Hlen).
    destruct (Z.ltb_spec index 0); [lia|]. destruct (Z.ltb_spec index (js_length (renderList e)));
      [|lia].
    intros [= <-] q h Hq. rewrite currentHeight_set_renderList. simpl in Hq.
    destruct (decide (Z.to_nat index = q)) as [<-|Hne].
    + by rewrite list_lookup_insert_eq in Hq by (by eapply lookup_lt_Some).
    + rewrite list_lookup_insert_ne in Hq by done. by apply Hs.
  - destruct (Z.ltb_spec index 0); [by intros [= <-]|].
    destruct (Z.ltb_spec index (js_length (renderList e))) as [Hlt|Hge].
    { unfold js_nth in Hpage. destruct (Z.ltb_spec index 0); [lia|].
      apply lookup_ge_None in Hpage. unfold js_length in Hlt. lia. }
    destruct (Z.eqb_spec index (js_length (renderList e))); [|done].
    intros [= <-] q h Hq. rewrite currentHeight_set_renderList. simpl in Hq.
    apply lookup_app_Some in Hq as [Hq|[_ Hq]]; [by apply Hs|].
    destruct (q - length (renderList e))%nat as [|n]; simpl in Hq;
      [done | by rewrite lookup_nil in Hq].
Qed.

Lemma js_or_estimate (a n g : Z) : js_or (js_or a (n * g)) (g * n) = js_or a (n * g).
Proof.
  unfold js_or. destruct (Z.eqb_spec a 0) as [Ha|Ha].
  - destruct (Z.eqb_spec (n * g) 0); lia.
  - by destruct (Z.eqb_spec a 0).
Qed.

Lemma currentHeight_initHeight {A} (e : Engine A) (index : Z) pageInfo update (k : Z) :
  currentHeight (initHeight e index pageInfo update) k =
    if decide (k = index) then ISubPage.height (recordOf e index pageInfo)
    else currentHeight e k.
Proof.
  assert (currentHeight (initHeight e index pageInfo update) k
          = currentHeight (set_subPageMap e (<[index := recordOf e index pageInfo]>
                                               (subPageMapRef e))) k) as ->.
  { unfold initHeight. fold (recordOf e index pageInfo).
    destruct update; [|done].
    destruct (js_nth _ index) as [[c|h]|]; try done. by destruct (h =? _). }
  unfold currentHeight. cbn [set_subPageMap subPageMapRef segmentListRef guessItemHeight].
  destruct (decide (k = index)) as [->|Hne].
  - rewrite lookup_insert_eq. unfold recordOf.
    cbn [fmap option_fmap option_map ISubPage.height js_or_opt].
    apply js_or_estimate.
  - by rewrite lookup_insert_ne.
Qed.

(** The placeholders stay in step with the records: when every placeholder
    has the best known height of its page, it still does after an overlap
    signal has been handled, whichever it is, and after a measurement
    [initHeight(index, true)], whatever the page measures. *)
Theorem synced_preserved {A} (e : Engine A) (index : Z) :
  synced e →
  (∀ res e', observerCallback e index res = Some e' → synced e') ∧
  (∀ pageInfo, synced (initHeight e index pageInfo true)).
Proof.
  intros Hs. split.
  - intros res e'. unfold observerCallback.
    destruct (negb (isIntersecting res) || Qle_bool (ratioOf res) INTERSECTION_THRESHOLD).
    { intros [= <-]. by apply synced_hidePage. }
    destruct (negb (Qle_bool (ratioOf res) INTERSECTION_THRESHOLD)).
    + by apply synced_showPage.
    + by intros [= <-].
  - intros pageInfo q h Hq.
    rewrite currentHeight_initHeight.
    unfold initHeight in Hq. fold (recordOf e index pageInfo) in Hq.
    set (e1 := set_subPageMap e (<[index := recordOf e index pageInfo]> (subPageMapRef e)))
      in *.
    change (renderList e1) with (renderList e) in Hq.
    destruct (decide (Z.of_nat q = index)) as [<-|Hne].
    + rewrite js_nth_lookup, Nat2Z.id in Hq by lia.
      destruct (renderList e !! q) as [[c|h0]|] eqn:Hq0.
      * simpl in Hq. congruence.
      * change (ISubPage.height (recordOf e (Z.of_nat q) pageInfo))
          with (js_or (PageInfo.height pageInfo)
                  (js_or_opt (js_length <$> js_nth (segmentListRef e) (Z.of_nat q)) 0
                   * guessItemHeight e)) in *.
        destruct (Z.eqb_spec h0 (js_or (PageInfo.height pageInfo)
                  (js_or_opt (js_length <$> js_nth (segmentListRef e) (Z.of_nat q)) 0
                   * guessItemHeight e))) as [Heq|Hneq].
        -- simpl in Hq. congruence.
        -- simpl in Hq.
           rewrite list_lookup_insert_eq in Hq by (by eapply lookup_lt_Some). congruence.
      * simpl in Hq. congruence.
    + assert (renderList e !! q = Some (Placeholder h)) as Hq0; [|by apply Hs].
      destruct (js_nth (renderList e) index) as [[c|h0]|] eqn:Hidx; try done.
      destruct (h0 =? _); [done|]. simpl in Hq.
      rewrite list_lookup_insert_ne in Hq; [done|].
      destruct (js_nth_Some _ _ _ Hidx) as (Hi & _ & _). lia.
Qed.

Lemma synced_preserved_witness :
  (∀ res e', observerCallback sampleEngine 1 res = Some e' → synced e') ∧
  (∀ pageInfo, synced (initHeight sampleEngine 1 pageInfo true)).
Proof.
  apply (synced_preserved sampleEngine 1).
  intros [|[|[|q]]] h Hq; vm_compute in Hq; try discriminate Hq.
  injection Hq as <-. vm_compute. reflexivity.
Defined.

(** ** The state after [initRenderList] *)

Lemma recordOf_ext {A} (e e' : Engine A) index pageInfo :
  segmentListRef e' = segmentListRef e → guessItemHeight e' = guessItemHeight e →
  recordOf e' index pageInfo = recordOf e index pageInfo.
Proof. intros Hs Hg. unfold recordOf. by rewrite Hs, Hg. Qed.

Lemma foldl_initHeight {A} (getPageInfo : Z → PageInfo.t) (l : list Z) :
  ∀ e : Engine A,
    let e' := foldl (fun e index => initHeight e index (getPageInfo index) false) e l in
    renderList e' = renderList e ∧ segmentListRef e' = segmentListRef e ∧
    guessItemHeight e' = guessItemHeight e ∧ headerHeightRef e' = headerHeightRef e ∧
    ∀ k, subPageMapRef e' !! k =
           if decide (k ∈ l) then Some (recordOf e k (getPageInfo k))
           else subPageMapRef e !! k.
Proof.
  induction l as [|a l IH]; intros e.
  - simpl. split_and!; done.
  - cbn [foldl]. set (e1 := initHeight e a (getPageInfo a) false).
    destruct (IH e1) as (Hrl & Hsegs & Hg & Hh & Hmap). cbn zeta in *.
    split_and!; try (etrans; [eassumption | reflexivity]).
    intros k. rewrite Hmap.
    destruct (decide (k ∈ l)) as [Hin|Hout].
    + rewrite decide_True by (by right). reflexivity.
    + change (subPageMapRef e1) with (<[a := recordOf e a (getPageInfo a)]> (subPageMapRef e)).
      destruct (decide (k = a)) as [->|Hne].
      * rewrite decide_True by (by left). by rewrite lookup_insert_eq.
      * rewrite lookup_insert_ne by done.
        rewrite decide_False; [done|]. rewrite elem_of_cons. tauto.
Qed.

Lemma initRenderList_state {A} (getSegmentNum : list A → Z → list (list A)) lst segmentNum
    guess screens window header viewHeight getPageInfo :
  let segments := createSegmentList getSegmentNum lst segmentNum in
  let e := initRenderList getSegmentNum lst segmentNum guess screens window header viewHeight
             getPageInfo in
  renderList e = newRenderList segments guess ∧ segmentListRef e = segments ∧
  guessItemHeight e = guess ∧ headerHeightRef e = header ∧
  ∀ (q : nat) seg, segments !! q = Some seg →
    subPageMapRef e !! Z.of_nat q
    = Some (ISubPage.mk (negb (js_length (PageInfo.items (getPageInfo (Z.of_nat q))) =? 0))
              (js_or (PageInfo.height (getPageInfo (Z.of_nat q))) (js_length seg * guess))
              (js_length seg) (PageInfo.items (getPageInfo (Z.of_nat q)))).
Proof.
  intros segments e. unfold e, initRenderList. fold segments.
  set (e0 := mkEngine (newRenderList segments guess) false segments ∅ ∅ ∅ viewHeight header
               guess screens window).
  destruct (foldl_initHeight getPageInfo (seqZ 0 (js_length (newRenderList segments guess))) e0)
    as (Hrl & Hsegs & Hg & Hh & Hmap).
  cbn zeta in *. cbn [renderList segmentListRef guessItemHeight headerHeightRef subPageMapRef].
  split_and!; try done.
  intros q seg Hseg. rewrite Hmap.
  rewrite decide_True.
  - unfold recordOf. cbn [segmentListRef guessItemHeight e0].
    rewrite js_nth_lookup, Nat2Z.id, Hseg by lia. simpl.
    replace (js_or (js_length seg) 0) with (js_length seg)
      by (unfold js_or; destruct (Z.eqb_spec (js_length seg) 0); lia).
    reflexivity.
  - apply elem_of_seqZ. apply lookup_lt_Some in Hseg.
    unfold newRenderList, js_length. rewrite length_imap. lia.
Qed.

Lemma newRenderList_lookup {A} (segments : list (list A)) (guess : Z) (q : nat) :
  newRenderList segments guess !! q =
    (fun seg => if (q =? 0)%nat then Items seg else Placeholder (js_length seg * guess))
      <$> segments !! q.
Proof. unfold newRenderList. by rewrite list_lookup_imap. Qed.

(** [initRenderList] leaves the placeholders in step with the records,
    provided a placeholder page, when measured, has no height or the height
    it was given (the guess times its item count); the first page may
    measure anything. *)
Theorem initRenderList_synced {A} (getSegmentNum : list A → Z → list (list A)) lst segmentNum
    guess screens window header viewHeight getPageInfo :
  (∀ (q : nat) seg,
     (0 < q)%nat → createSegmentList getSegmentNum lst segmentNum !! q = Some seg →
     PageInfo.height (getPageInfo (Z.of_nat q)) = 0 ∨
     PageInfo.height (getPageInfo (Z.of_nat q)) = js_length seg * guess) →
  synced (initRenderList getSegmentNum lst segmentNum guess screens window header viewHeight
            getPageInfo).
Proof.
  intros Hmeasure.
  destruct (initRenderList_state getSegmentNum lst segmentNum guess screens window header
              viewHeight getPageInfo) as (Hrl & Hsegs & Hg & Hh & Hmap).
  cbn zeta in *. intros q h Hq. rewrite Hrl, newRenderList_lookup in Hq.
  destruct (createSegmentList getSegmentNum lst segmentNum !! q) as [seg|] eqn:Hseg;
    [|done]. simpl in Hq.
  destruct (Nat.eqb_spec q 0) as [|Hq0]; [done|]. injection Hq as <-.
  unfold currentHeight. rewrite (Hmap q seg Hseg), Hsegs, Hg.
  rewrite js_nth_lookup, Nat2Z.id, Hseg by lia.
  cbn [fmap option_fmap option_map ISubPage.height js_or_opt].
  replace (js_or (js_length seg) 0) with (js_length seg)
    by (unfold js_or; destruct (Z.eqb_spec (js_length seg) 0); lia).
  rewrite js_or_estimate.
  destruct (Hmeasure q seg ltac:(lia) Hseg) as [-> | ->]; unfold js_or.
  - done.
  - by destruct (Z.eqb_spec (js_length seg * guess) 0).
Qed.

Lemma initRenderList_synced_witness :
  synced (initRenderList getSegmentList [1; 2; 3; 4; 5]%nat (Num 2) 50 2 600 0 600 noPageInfo).
Proof.
  apply (initRenderList_synced getSegmentList [1; 2; 3; 4; 5]%nat (Num 2) 50 2 600 0 600
           noPageInfo).
  intros q seg Hq Hseg. left. reflexivity.
Defined.

Lemma foldr_add_shift (c : nat → Z) (l : list nat) (a : Z) :
  foldr (fun q acc => c q + acc) a l = foldr (fun q acc => c q + acc) 0 l + a.
Proof. induction l as [|x l IH]; simpl; [lia | rewrite IH; lia]. Qed.

Lemma contributedBefore_S {A} (e : Engine A) (p : nat) :
  contributedBefore e (S p) = contributedBefore e p + contributedHeight e (Z.of_nat p).
Proof.
  unfold contributedBefore. rewrite seq_S, foldr_app. cbn [foldr]. rewrite Nat.add_0_l.
  rewrite (foldr_add_shift (fun q => contributedHeight e (Z.of_nat q)) (seq 0 p)
             (contributedHeight e (Z.of_nat p) + 0)).
  lia.
Qed.

Lemma itemsBefore_S {A} (segments : list (list A)) (p : nat) (seg : list A) :
  segments !! p = Some seg →
  itemsBefore segments (S p) = itemsBefore segments p + js_length seg.
Proof.
  intros Hseg. unfold itemsBefore. rewrite (take_S_r _ _ _ Hseg), foldr_app. simpl.
  generalize (take p segments). intros l.
  induction l as [|x l IH]; simpl; lia.
Qed.

Lemma synced_contributed {A} (e : Engine A) (q : nat) page (seg : list A) :
  synced e → renderList e !! q = Some page → segmentListRef e !! q = Some seg →
  contributedHeight e (Z.of_nat q) = currentHeight e (Z.of_nat q).
Proof.
  intros Hs Hpage Hseg. rewrite (contributedHeight_lookup e q page seg Hpage Hseg).
  destruct page as [content|h].
  - rewrite (currentHeight_pageHeight e (Z.of_nat q) content seg); [by rewrite Nat2Z.id|lia|].
    by rewrite js_nth_lookup, Nat2Z.id by lia.
  - simpl. by apply Hs.
Qed.

(** Before any measurement every item is located by the guess alone: after
    [initRenderList] with no page laid out, the item with index [i] of the
    table is at [header + i * guessItemHeight], with the guess as height,
    whatever the segmenter and the size are; it counts as rendered on the
    first page only. *)
Theorem initRenderList_uniform {A} (getSegmentNum : list A → Z → list (list A)) lst
    segmentNum guess screens window header viewHeight (p : nat) (index : Z) :
  let e := initRenderList getSegmentNum lst segmentNum guess screens window header viewHeight
             noPageInfo in
  inPage (segmentListRef e) p index →
  getItemScrollTop e index =
    IItemScrollTop.mk guess (header + index * guess) (bool_decide (p = 0%nat)) (Z.of_nat p).
Proof.
  intros e Hin.
  destruct (initRenderList_state getSegmentNum lst segmentNum guess screens window header
              viewHeight noPageInfo) as (Hrl & Hsegs & Hg & Hh & Hmap).
  cbn zeta in *. fold e in Hrl, Hsegs, Hg, Hh, Hmap.
  set (segments := createSegmentList getSegmentNum lst segmentNum) in *.
  assert (synced e) as Hsync.
  { apply initRenderList_synced. intros q seg _ _. by left. }
  assert (∀ (q : nat) seg, segments !! q = Some seg →
            contributedHeight e (Z.of_nat q) = js_length seg * guess) as Hcontrib.
  { intros q seg Hseg.
    assert (is_Some (renderList e !! q)) as [page Hpage].
    { rewrite Hrl, newRenderList_lookup, Hseg. by eexists. }
    rewrite (synced_contributed e q page seg Hsync Hpage) by (by rewrite Hsegs).
    unfold currentHeight. rewrite (Hmap q seg Hseg), Hsegs, Hg.
    rewrite js_nth_lookup, Nat2Z.id, Hseg by lia. simpl.
    replace (js_or (js_length seg) 0) with (js_length seg)
      by (unfold js_or; destruct (Z.eqb_spec (js_length seg) 0); lia).
    unfold js_or. simpl.
    destruct (Z.eqb_spec (js_length seg * guess) 0); lia. }
  assert (∀ q : nat, (q ≤ p)%nat → contributedBefore e q = itemsBefore segments q * guess)
    as Hbefore.
  { destruct Hin as (seg & Hseg & _). rewrite Hsegs in Hseg.
    induction q as [|q IH]; intros Hq; [reflexivity|].
    assert (is_Some (segments !! q)) as [segq Hsegq].
    { apply lookup_lt_is_Some. apply lookup_lt_Some in Hseg. lia. }
    rewrite contributedBefore_S, (itemsBefore_S _ _ _ Hsegq), IH, (Hcontrib q segq Hsegq) by lia.
    lia. }
  destruct Hin as (seg & Hseg & Hin). rewrite Hsegs in Hseg, Hin.
  assert (renderList e !! p
          = Some (if (p =? 0)%nat then Items seg else Placeholder (js_length seg * guess)))
    as Hpage by (by rewrite Hrl, newRenderList_lookup, Hseg).
  rewrite (getItemScrollTop_formula e p _ index Hpage)
    by (exists seg; by rewrite Hsegs).
  rewrite Hsegs, Hh, Hbefore by lia.
  unfold locateInPage. rewrite Hg.
  destruct (Nat.eqb_spec p 0) as [->|Hp0].
  - rewrite bool_decide_eq_true_2 by done.
    rewrite (Hmap 0%nat seg Hseg). simpl.
    pose proof (itemsBefore_nonneg segments 0).
    destruct (Z.gtb_spec (js_length (@nil Z)) (index - itemsBefore segments 0));
      [unfold js_length in *; simpl in *; lia|].
    f_equal. lia.
  - rewrite bool_decide_eq_false_2 by done. f_equal. lia.
Qed.

Lemma initRenderList_uniform_witness :
  getItemScrollTop
    (initRenderList getSegmentList [1; 2; 3; 4; 5]%nat (Num 2) 50 2 600 30 600 noPageInfo) 3
  = IItemScrollTop.mk 50 (30 + 3 * 50) (bool_decide (1%nat = 0%nat)) (Z.of_nat 1).
Proof.
  apply (initRenderList_uniform getSegmentList [1; 2; 3; 4; 5]%nat (Num 2) 50 2 600 30 600
           1%nat 3).
  exists [3; 4]%nat. split; [reflexivity | vm_compute; split; [discriminate | reflexivity]].
Defined.

(** ** The position of a page and of its first item *)



(** ** The scroll handler *)

(** The range of pages the scroll handler keeps lies inside the table, and
    with a positive guess and a viewport height that is not negative it
    holds the page under the top of the viewport (by the estimate), the page
    before it and the two pages after it, as far as the table has them. *)
Theorem scrollRange_keeps_viewport {A} (e : Engine A) (listLength : Z)
    (info : ScrollInfo.t) (startPage endPage : Z) :
  scrollRange e listLength info = Some (startPage, endPage) →
  0 < guessItemHeight e → 0 ≤ ScrollInfo.height info →
  0 ≤ startPage ∧ endPage ≤ js_length (segmentListRef e) - 1 ∧
  ∀ k, 0 ≤ k ≤ js_length (segmentListRef e) - 1 →
       scrollCurrentPage e listLength info - 1 ≤ k ≤ scrollCurrentPage e listLength info + 2 →
       startPage ≤ k ≤ endPage.
Proof.
  unfold scrollRange. intros Hrange Hguess Hheight.
  destruct ((js_length (segmentListRef e) =? 0) || (guessItemHeight e =? 0)); [done|].
  injection Hrange as <- <-.
  set (d := guessItemHeight e * Z.max 1 (listLength / js_length (segmentListRef e))).
  assert (0 < d) as Hd by (unfold d; nia).
  pose proof (ceil_div_bounds (ScrollInfo.height info) d Hd) as [Hlo Hhi].
  assert (0 ≤ ceil_div (ScrollInfo.height info) d) by nia.
  split; [lia|]. split; [lia|]. intros k Hk Hnear. lia.
Qed.

Lemma scrollRange_keeps_viewport_witness :
  0 ≤ 0 ∧ 2 ≤ js_length (segmentListRef sampleEngine) - 1 ∧
  ∀ k, 0 ≤ k ≤ js_length (segmentListRef sampleEngine) - 1 →
       scrollCurrentPage sampleEngine 8 (ScrollInfo.mk 100 440 0) - 1 ≤ k
         ≤ scrollCurrentPage sampleEngine 8 (ScrollInfo.mk 100 440 0) + 2 →
       0 ≤ k ≤ 2.
Proof.
  apply (scrollRange_keeps_viewport sampleEngine 8 (ScrollInfo.mk 100 440 0) 0 2).
  - reflexivity.
  - reflexivity.
  - vm_compute. discriminate.
Defined.

Lemma hideOutside_lookup {A} (e : Engine A) (startPage endPage : Z) (q : nat) :
  renderList (hideOutside e startPage endPage) !! q =
    (fun page =>
       match page with
       | Items _ =>
           if (Z.of_nat q <? startPage) || (Z.of_nat q >? endPage)
           then Placeholder (currentHeight e (Z.of_nat q))
           else page
       | Placeholder _ => page
       end) <$> renderList e !! q.
Proof. unfold hideOutside. simpl. by rewrite list_lookup_imap. Qed.

Lemma hideOutside_contributed {A} (e : Engine A) (startPage endPage k : Z) :
  contributedHeight (hideOutside e startPage endPage) k = contributedHeight e k.
Proof.
  unfold contributedHeight. change (segmentListRef (hideOutside e startPage endPage))
    with (segmentListRef e).
  unfold js_nth. destruct (Z.ltb_spec k 0); [done|].
  rewrite hideOutside_lookup.
  destruct (renderList e !! Z.to_nat k) as [[content|h]|] eqn:Hpage; simpl; try done.
  destruct (segmentListRef e !! Z.to_nat k) as [seg|] eqn:Hseg;
    [|first [done | match goal with |- context [if ?b then _ else _] => by destruct b end]].
  rewrite Z2Nat.id by lia.
  destruct ((k <? startPage) || (k >? endPage)).
  - cbn [pageHeight].
    rewrite (currentHeight_pageHeight e k content seg) by (lia || by rewrite js_nth_lookup by lia).
    unfold pageHeight. by rewrite Z2Nat.id by lia.
  - unfold pageHeight. cbn [subPageMapRef guessItemHeight hideOutside set_renderList].
    by rewrite Z2Nat.id by lia.
Qed.

(** The scroll handler only hides: its update keeps the length of the
    render list, leaves alone the pages of the range and the placeholders,
    turns every other page into a placeholder of its best known height, and
    keeps the placeholders in step with the records. *)
Theorem hideOutside_only_hides {A} (e : Engine A) (startPage endPage : Z) :
  length (renderList (hideOutside e startPage endPage)) = length (renderList e) ∧
  (∀ (q : nat) page, renderList e !! q = Some page →
     renderList (hideOutside e startPage endPage) !! q =
       Some (match page with
             | Items _ =>
                 if bool_decide (startPage ≤ Z.of_nat q ≤ endPage) then page
                 else Placeholder (currentHeight e (Z.of_nat q))
             | Placeholder _ => page
             end)) ∧
  (synced e → synced (hideOutside e startPage endPage)).
Proof.
  split; [|split].
  - unfold hideOutside. simpl. by rewrite length_imap.
  - intros q page Hq. rewrite hideOutside_lookup, Hq. simpl.
    destruct page as [content|h]; [|done].
    destruct (Z.ltb_spec (Z.of_nat q) startPage), (Z.gtb_spec (Z.of_nat q) endPage); simpl;
      (rewrite bool_decide_eq_false_2 by lia) || (rewrite bool_decide_eq_true_2 by lia); done.
  - intros Hs q h Hq. rewrite hideOutside_lookup in Hq.
    change (currentHeight (hideOutside e startPage endPage) (Z.of_nat q))
      with (currentHeight e (Z.of_nat q)).
    destruct (renderList e !! q) as [[content|h0]|] eqn:Hq0; simpl in Hq; try done.
    + match type of Hq with context [if ?b then _ else _] => destruct b end; congruence.
    + injection Hq as <-. by apply Hs.
Qed.

(** Hiding pages on scroll moves nothing: every page adds the same height
    as before, so every item whose own page was not hidden is located where
    it was, with the same height and the same flags. *)
Theorem hideOutside_keeps_positions {A} (e : Engine A) (startPage endPage : Z) (p : nat)
    (page : VirtualListSegment A) (index : Z) :
  renderList e !! p = Some page →
  inPage (segmentListRef e) p index →
  renderList (hideOutside e startPage endPage) !! p = Some page →
  (∀ k, contributedHeight (hideOutside e startPage endPage) k = contributedHeight e k) ∧
  getItemScrollTop (hideOutside e startPage endPage) index = getItemScrollTop e index.
Proof.
  intros Hpage Hin Hkept. split; [intros k; apply hideOutside_contributed|].
  rewrite (getItemScrollTop_formula e p page index Hpage Hin).
  rewrite (getItemScrollTop_formula (hideOutside e startPage endPage) p page index Hkept Hin).
  change (locateInPage (hideOutside e startPage endPage)) with (locateInPage e).
  change (segmentListRef (hideOutside e startPage endPage)) with (segmentListRef e).
  change (headerHeightRef (hideOutside e startPage endPage)) with (headerHeightRef e).
  destruct (locateInPage _ _ _ _) as [[height added] rendered].
  f_equal. f_equal. f_equal. unfold contributedBefore.
  induction (seq 0 p) as [|q l IH]; [done|]. simpl.
  by rewrite hideOutside_contributed, IH.
Qed.

Lemma hideOutside_keeps_positions_witness :
  (∀ k, contributedHeight (hideOutside sampleEngine 2 2) k = contributedHeight sampleEngine k) ∧
  getItemScrollTop (hideOutside sampleEngine 2 2) 7 = getItemScrollTop sampleEngine 7.
Proof.
  apply (hideOutside_keeps_positions sampleEngine 2 2 2 (Items [6; 7]%nat) 7).
  - reflexivity.
  - exists [6; 7]%nat. split; [reflexivity | vm_compute; split; [discriminate | reflexivity]].
  - reflexivity.
Defined.





(** ** Runs of the navigator *)

(** A run of [scrollTo] is short: at most seven calls to collaborators, at
    most two of them scroll requests (the jump and the refinement), at most
    one call of [onScrollToEnd]; and before initialisation is complete it
    calls nothing and returns [false]. *)
Theorem scrollTo_run_bounded {A} (P : Platform) (e : Engine A) (index offsetTop : Z)
    (t : list Event) :
  ∃ b t', scrollTo P e index offsetTop t = (Returned b, t ++ t') ∧
          (length t' ≤ 7)%nat ∧ (countScrolls t' ≤ 2)%nat ∧ (countCallbacks t' ≤ 1)%nat ∧
          (isCompleted e = false → b = false ∧ t' = []).
Proof.
  run_scrollTo P e index.
  all: run_result.
  all: unfold countScrolls, countCallbacks; simpl; split_and!; try lia; try done;
    intros; congruence.
Qed.

(** The jump of [scrollTo] to an estimated offset is never animated and is
    clamped by the height of the content that the scroll view has just
    answered: the offset is at most [scrollHeight], and not negative when
    [scrollHeight] is not. *)
Theorem scrollTo_jump_clamped {A} (P : Platform) (e : Engine A) (index offsetTop : Z)
    (t : list Event) :
  ∃ b t', scrollTo P e index offsetTop t = (Returned b, t ++ t') ∧
          ∀ top animated answer,
            EvNodeScrollTo top animated answer ∈ t' →
            animated = false ∧
            ∃ info, EvScrollViewInfo (Returned info) ∈ t' ∧
                    top ≤ ScrollInfo.scrollHeight info ∧
                    (0 ≤ ScrollInfo.scrollHeight info → 0 ≤ top).
Proof.
  run_scrollTo P e index.
  all: run_result.
  all: intros top animated answer Hin;
    repeat (apply elem_of_cons in Hin as [Hin|Hin]; [try discriminate Hin|]);
    try (by apply elem_of_nil in Hin).
  all: injection Hin as -> -> _; split; [done|]; eexists; split;
    [repeat (first [apply list_elem_of_here | apply list_elem_of_further])|]; simpl; lia.
Qed.

(** [onScrollToEnd] tells success and nothing else: when [scrollTo]
    returns [true] and a callback is registered, the call of the callback is
    the last event of the run and it returned; when [scrollTo] returns
    [false], no call of the callback returned. *)
Theorem scrollTo_callback_on_success {A} (P : Platform) (e : Engine A) (index offsetTop : Z)
    (t : list Event) :
  ∃ b t', scrollTo P e index offsetTop t = (Returned b, t ++ t') ∧
          (b = true → is_Some (onScrollToEnd P) →
           last t' = Some (EvOnScrollToEnd (Returned tt))) ∧
          (b = true → onScrollToEnd P = None → countCallbacks t' = 0%nat) ∧
          (b = false → EvOnScrollToEnd (Returned tt) ∉ t').
Proof.
  run_scrollTo P e index.
  all: run_result.
  all: split_and!; try (intros; congruence); try (intros _ [? ?]; congruence);
    try (intros; reflexivity).
  all: intros _ Hin;
    repeat (apply elem_of_cons in Hin as [Hin|Hin]; [try discriminate Hin|]);
    try (by apply elem_of_nil in Hin).
Qed.

(** When the element of the item is already there at the first check,
    [scrollTo] only asks [scrollToElement]: no jump to an estimate, a single
    scroll request, and the result is [true] exactly when [scrollToElement]
    reported success and [onScrollToEnd], if any, returned. *)
Theorem scrollTo_exact_when_present {A} (P : Platform) (e : Engine A) (index offsetTop : Z)
    (t : list Event) (width height : Z) :
  isCompleted e = true →
  probeElement P t
    (SpecificItem (findPage (segmentListRef e) 0 0 index).1
                  (findPage (segmentListRef e) 0 0 index).2)
  = ProbeRect (Some (width, height)) →
  0 < width ∨ 0 < height →
  ∃ b t', scrollTo P e index offsetTop t = (Returned b, t ++ t') ∧
          Forall (fun ev => isJump ev = false) t' ∧ countScrolls t' = 1%nat ∧
          (b = true ↔ Forall (fun ev => collaboratorFailed ev = false) t').
Proof.
  intros Hcompleted Hprobe Hsize.
  unfold scrollTo. rewrite Hcompleted. simpl.
  destruct (findPage (segmentListRef e) 0 0 index) as [pageIndex itemIndexInPage].
  simpl in Hprobe. run_unfold. rewrite Hprobe.
  replace ((width >? 0) || (height >? 0)) with true
    by (destruct (Z.gtb_spec width 0), (Z.gtb_spec height 0); simpl; lia).
  repeat run_step P; simpl.
  all: run_result.
  all: split_and!; [by repeat constructor | reflexivity | split].
  all: try (intros _; by repeat constructor); try (intros; congruence).
  all: rewrite !Forall_cons; simpl; intros; intuition congruence.
Qed.

Lemma scrollTo_exact_when_present_witness :
  ∃ b t', scrollTo presentPlatform sampleEngine 4 0 [] = (Returned b, [] ++ t') ∧
          Forall (fun ev => isJump ev = false) t' ∧ countScrolls t' = 1%nat ∧
          (b = true ↔ Forall (fun ev => collaboratorFailed ev = false) t').
Proof.
  apply (scrollTo_exact_when_present presentPlatform sampleEngine 4 0 [] 375 50).
  - reflexivity.
  - reflexivity.
  - left. lia.
Defined.

Lemma scrollTo_never_throws {A} (P : Platform) (e : Engine A) (index offsetTop : Z)
    (t : list Event) :
  ∃ b t', scrollTo P e index offsetTop t = (Returned b, t').
Proof. run_scrollTo P e index; eauto. Qed.

(** [scrollIntoView] never throws either: whatever the collaborators
    answer, as long as each call of the run settles (it returns, throws or
    rejects, or the timer of [checkElementExists] fires), it returns a
    boolean, and the boolean is [false] whenever a collaborator failed
    during the run.  A query that is never answered is no run of [Run.M]. *)
Theorem scrollIntoView_returns_boolean {A} (P : Platform) (e : Engine A)
    (index offsetTop : Z) (t : list Event) :
  ∃ b t', scrollIntoView P e index offsetTop t = (Returned b, t ++ t') ∧
          (Exists (fun ev => collaboratorFailed ev = true) t' → b = false).
Proof.
  unfold scrollIntoView. unfold Run.try_catch at 1. unfold Run.bind at 1.
  unfold getScrollViewInfo at 1.
  destruct (queryScrollViewInfo P t) as [info|] eqn:Hinfo.
  2: { unfold Run.ret. run_close. }
  cbn zeta.
  destruct (negb _).
  - run_scrollTo P e index; run_close.
  - run_unfold. repeat run_step P; simpl; run_close.
Qed.

(** An item that is not inside the viewport is handed to [scrollTo]: the
    run of [scrollIntoView] is the query of the scroll view followed by the
    run of [scrollTo], with its result. *)
Theorem scrollIntoView_delegates {A} (P : Platform) (e : Engine A) (index offsetTop : Z)
    (t : list Event) (info : ScrollInfo.t) :
  queryScrollViewInfo P t = Returned info →
  ¬ (ScrollInfo.scrollTop info ≤ IItemScrollTop.scrollTop (getItemScrollTop e index) ∧
     IItemScrollTop.scrollTop (getItemScrollTop e index)
       + IItemScrollTop.height (getItemScrollTop e index)
       ≤ ScrollInfo.scrollTop info + ScrollInfo.height info) →
  scrollIntoView P e index offsetTop t
  = scrollTo P e index offsetTop (t ++ [EvScrollViewInfo (Returned info)]).
Proof.
  intros Hinfo Hout.
  unfold scrollIntoView, Run.try_catch, Run.bind, getScrollViewInfo. rewrite Hinfo.
  cbn zeta.
  replace (negb _) with true.
  - destruct (scrollTo_never_throws P e index offsetTop
                (t ++ [EvScrollViewInfo (Returned info)])) as (b & t' & ->). done.
  - symmetry. apply negb_true_iff, andb_false_iff.
    destruct (Z.leb_spec (ScrollInfo.scrollTop info)
                (IItemScrollTop.scrollTop (getItemScrollTop e index))); [|by left].
    right. destruct (Z.geb_spec (ScrollInfo.scrollTop info + ScrollInfo.height info)
                       (IItemScrollTop.scrollTop (getItemScrollTop e index)
                        + IItemScrollTop.height (getItemScrollTop e index))); [lia | done].
Qed.

Lemma scrollIntoView_delegates_witness :
  scrollIntoView presentPlatform sampleEngine 7 0 []
  = scrollTo presentPlatform sampleEngine 7 0
      ([] ++ [EvScrollViewInfo (Returned (ScrollInfo.mk 400 5000 0))]).
Proof.
  apply (scrollIntoView_delegates presentPlatform sampleEngine 7 0 []
           (ScrollInfo.mk 400 5000 0)).
  - reflexivity.
  - vm_compute. intros [_ Hbottom]. apply Hbottom. reflexivity.
Defined.

(** ** The estimate of the navigator *)





(** ** Retries of an installation *)

Lemma createIntersectionObserver_installs {A} (s : EventLoop A) (index retry : Z)
    (Q : Install → Prop) :
  Q (mkInstall index retry) →
  Forall Q (awaiting s ++ timers s) →
  Forall Q (awaiting (createIntersectionObserver s index retry)
            ++ timers (createIntersectionObserver s index retry)).
Proof.
  intros Hnew Hall. unfold createIntersectionObserver.
  destruct (_ || _); [done|]. destruct (_ || _); [done|]. simpl.
  apply Forall_app in Hall as [Ha Ht].
  apply Forall_app. split; [|done]. apply Forall_app. split; [done|]. by constructor.
Qed.

(** No installation is retried more than three times: in every state the
    event loop reaches, each suspended installation and each retry timer
    has a retry count between 0 and 3. *)
Theorem retries_bounded {A} (s : EventLoop A) :
  reachable s →
  Forall (fun p => 0 ≤ retryCount p ≤ 3) (awaiting s ++ timers s).
Proof.
  intros (s0 & (_ & _ & Haw & Htm) & Hsteps).
  assert (Forall (fun p => 0 ≤ retryCount p ≤ 3) (awaiting s0 ++ timers s0)) as Hinv
    by (rewrite Haw, Htm; constructor).
  clear Haw Htm. induction Hsteps as [s|s1 s2 s3 Hstep _ IH]; [done|].
  apply IH. clear IH.
  destruct Hstep as [s index|s before p after answer created Haw
                    |s before p after Htm|s|s e' Ho Hc].
  - apply createIntersectionObserver_installs; [simpl; lia | done].
  - rewrite Haw in Hinv.
    apply Forall_app in Hinv as [Ha Ht]. apply Forall_app in Ha as [Hb Hpa].
    apply Forall_cons in Hpa as [Hp Hafter].
    unfold createIntersectionObserver_resume.
    destruct answer as [elementExists|]; simpl.
    2: { apply Forall_app. split; [by apply Forall_app|done]. }
    destruct (negb elementExists); simpl.
    + destruct (Z.ltb_spec (retryCount p) 3); simpl.
      * apply Forall_app. split; [by apply Forall_app|].
        apply Forall_app. split; [done|]. constructor; [simpl; lia | constructor].
      * apply Forall_app. split; [by apply Forall_app|done].
    + destruct created; simpl; (apply Forall_app; split; [by apply Forall_app|done]).
  - rewrite Htm in Hinv.
    apply Forall_app in Hinv as [Ha Ht]. apply Forall_app in Ht as [Hb Hpa].
    apply Forall_cons in Hpa as [Hp Hafter].
    apply createIntersectionObserver_installs; [by destruct p|].
    simpl. apply Forall_app. split; [done | by apply Forall_app].
  - done.
  - done.
Qed.

Lemma retries_bounded_witness :
  Forall (fun p => 0 ≤ retryCount p ≤ 3) (awaiting sampleLoop ++ timers sampleLoop).
Proof.
  apply (retries_bounded sampleLoop).
  exists (mkLoop sampleEngine [] []). split.
  - repeat split; reflexivity.
  - eapply rtc_l; [apply step_request | apply rtc_refl].
Defined.

(** ** debounce *)

Lemma debounce_callsOf_snoc {Args} (ls : list (@Debounce.Label Args)) l :
  Debounce.callsOf (ls ++ [l])
  = Debounce.callsOf ls ++ match l with Debounce.Call args => [args] | _ => [] end.
Proof. unfold Debounce.callsOf. rewrite omap_app. by destruct l. Qed.

Lemma debounce_invariant {Args} (immediate : bool) (ls : list (@Debounce.Label Args)) s :
  Debounce.run immediate ls s →
  Debounce.pending s = match Debounce.timer s with Some id => {[id]} | None => ∅ end ∧
  (Debounce.timer s = None → Debounce.lastArgs s = None) ∧
  match Debounce.lastArgs s with
  | Some args => ∃ before, Debounce.callsOf ls = before ++ [args] ∧
                           Debounce.executed s `sublist_of` before
  | None => Debounce.executed s `sublist_of` Debounce.callsOf ls
  end.
Proof.
  induction 1 as [|ls s l s' _ (Hpending & Hnone & Hexec) Hstep].
  - simpl. split_and!; done.
  - rewrite debounce_callsOf_snoc.
    assert (Debounce.executed s `sublist_of` Debounce.callsOf ls) as Hsub.
    { destruct (Debounce.lastArgs s) as [a|]; [|done].
      destruct Hexec as (before & -> & Hsub). by apply sublist_inserts_r. }
    destruct Hstep as [s args|s id Hid|s|s]; simpl.
    + split_and!; try done.
      * unfold clearTimer. rewrite Hpending.
        destruct (Debounce.timer s); set_solver.
      * destruct (Debounce.timer s) as [id|] eqn:Htimer; simpl.
        -- rewrite andb_false_r. eexists. split; [reflexivity | done].
        -- destruct immediate; simpl.
           ++ by apply sublist_app.
           ++ eexists. split; [reflexivity | done].
    + rewrite Hpending in Hid. destruct (Debounce.timer s) as [id'|]; [|set_solver].
      apply elem_of_singleton in Hid as ->. rewrite Hpending, app_nil_r.
      split_and!; [set_solver | done |].
      destruct immediate; simpl; [done|].
      destruct (Debounce.lastArgs s) as [a|]; [|done].
      destruct Hexec as (before & -> & Hsub'). by apply sublist_app.
    + rewrite app_nil_r. unfold Debounce.cancel.
      destruct (Debounce.timer s) as [id|] eqn:Htimer; simpl.
      * rewrite Hpending. split_and!; [set_solver | done | done].
      * rewrite Htimer. split_and!; try done; try by rewrite (Hnone eq_refl) in *.
    + rewrite app_nil_r. unfold Debounce.flush.
      destruct (Debounce.timer s) as [id|] eqn:Htimer; simpl.
      * destruct (Debounce.lastArgs s) as [a|] eqn:Hlast; simpl.
        -- rewrite Hpending. split_and!; [set_solver | done |].
           destruct Hexec as (before & -> & Hsub'). by apply sublist_app.
        -- rewrite Htimer, Hlast. done.
      * rewrite Htimer. split_and!; try done; try by rewrite (Hnone eq_refl) in *.
Qed.


(** The trailing edge: without [immediate] and without [cancel], once no
    timer is pending the last call has been carried out: the last arguments
    [fn] was called with are those of the last call, however many calls
    came in between. *)
Theorem debounce_trailing_edge {Args} (ls : list (@Debounce.Label Args)) s :
  Debounce.run false ls s →
  Debounce.Cancel ∉ ls →
  Debounce.timer s = None →
  last (Debounce.executed s) = last (Debounce.callsOf ls).
Proof.
  intros Hrun Hcancel.
  enough ((Debounce.timer s = None →
           last (Debounce.executed s) = last (Debounce.callsOf ls)) ∧
          (is_Some (Debounce.timer s) →
           ∃ args, Debounce.lastArgs s = Some args ∧
                   last (Debounce.callsOf ls) = Some args)) as [Hgoal _]; [done|].
  induction Hrun as [|ls s l s' Hrun IH Hstep]; [split; [done | by intros [? ?]]|].
  destruct (debounce_invariant false ls s Hrun) as (Hpending & Hnone & _).
  destruct IH as [IHnone IHsome]; [set_solver|].
  rewrite debounce_callsOf_snoc.
  destruct Hstep as [s args|s id Hid|s|s]; simpl.
  - split; [done|]. intros _. exists args. by rewrite last_snoc.
  - rewrite Hpending in Hid. destruct (Debounce.timer s) as [id'|] eqn:Htimer; [|set_solver].
    destruct IHsome as (args & Hlast & Hcalls); [done|].
    rewrite Hlast, app_nil_r, last_snoc. split; [done | by intros [? ?]].
  - exfalso. apply Hcancel. set_solver.
  - rewrite app_nil_r. unfold Debounce.flush.
    destruct (Debounce.timer s) as [id|] eqn:Htimer; simpl.
    + destruct IHsome as (args & Hlast & Hcalls); [done|].
      rewrite Hlast. simpl. rewrite last_snoc. split; [done | by intros [? ?]].
    + rewrite Htimer. split; [by intros _; apply IHnone | by intros [? ?]].
Qed.

Lemma debounce_trailing_edge_witness :
  last (Debounce.executed
          (Debounce.fire false
             (Debounce.call false (Debounce.call false Debounce.init 1) 2) 2))
  = last (Debounce.callsOf ([Debounce.Call 1; Debounce.Call 2] ++ [Debounce.Fire 2])).
Proof.
  apply (debounce_trailing_edge ([Debounce.Call 1; Debounce.Call 2] ++ [Debounce.Fire 2])).
  - apply Debounce.run_step with (s := Debounce.call false (Debounce.call false Debounce.init 1) 2).
    + apply (Debounce.run_step false [Debounce.Call 1]
               (Debounce.call false Debounce.init 1) (Debounce.Call 2)).
      * apply (Debounce.run_step false [] Debounce.init (Debounce.Call 1));
          [apply Debounce.run_init | apply Debounce.step_call].
      * apply Debounce.step_call.
    + apply Debounce.step_fire. vm_compute. reflexivity.
  - intros Hin. repeat (apply elem_of_cons in Hin as [Hin|Hin]; [discriminate Hin|]).
    by apply elem_of_nil in Hin.
  - reflexivity.
Defined.


(** ** throttle *)

Lemma throttle_callsOf_snoc {Args} (ls : list (@Throttle.Label Args)) l :
  Throttle.callsOf (ls ++ [l])
  = Throttle.callsOf ls ++ match l with Throttle.Call _ args => [args] | _ => [] end.
Proof. unfold Throttle.callsOf. rewrite omap_app. by destruct l. Qed.

Lemma throttle_invariant {Args} (mustRunDelay : Z) (ls : list (@Throttle.Label Args)) s :
  Throttle.run mustRunDelay ls s →
  Throttle.pending s = match Throttle.timer s with Some id => {[id]} | None => ∅ end ∧
  match Throttle.timer s with
  | Some _ => ∃ before args, Throttle.lastArgs s = Some args ∧
                             Throttle.callsOf ls = before ++ [args] ∧
                             Throttle.executed s `sublist_of` before
  | None => Throttle.lastArgs s = None ∧
            Throttle.executed s `sublist_of` Throttle.callsOf ls ∧
            last (Throttle.executed s) = last (Throttle.callsOf ls)
  end.
Proof.
  induction 1 as [|ls s l s' _ (Hpending & Hexec) Hstep].
  - simpl. split_and!; done.
  - rewrite throttle_callsOf_snoc.
    assert (Throttle.executed s `sublist_of` Throttle.callsOf ls) as Hsub.
    { destruct (Throttle.timer s) as [id|].
      - destruct Hexec as (before & a & _ & -> & Hsub). by apply sublist_inserts_r.
      - by destruct Hexec as (_ & Hsub & _). }
    assert (clearTimer (Throttle.timer s) (Throttle.pending s) = ∅) as Hclear.
    { unfold clearTimer. rewrite Hpending. destruct (Throttle.timer s); set_solver. }
    destruct Hstep as [s curTime args|s id Hid].
    + unfold Throttle.call. rewrite Hclear.
      destruct (_ >=? _); simpl.
      * split_and!; try done; [by apply sublist_app | by rewrite !last_snoc].
      * split; [set_solver|]. by exists (Throttle.callsOf ls), args.
    + rewrite Hpending in Hid. destruct (Throttle.timer s) as [id'|]; [|set_solver].
      apply elem_of_singleton in Hid as ->.
      destruct Hexec as (before & a & Hlast & Hcalls & Hsub').
      simpl. rewrite Hpending, Hlast, app_nil_r, Hcalls.
      split_and!; [set_solver | done | by apply sublist_app | by rewrite !last_snoc].
Qed.

(** A throttled function never leaks a timer, never invents a call, and
    always carries out the last call: after any history of calls and timer
    callbacks at most one timer is pending, the arguments [fn] was called
    with are, in order, arguments of calls, each used at most once, and
    once no timer is pending the last arguments [fn] was called with are
    those of the last call. *)
Theorem throttle_one_timer_last_call_wins {Args} (mustRunDelay : Z)
    (ls : list (@Throttle.Label Args)) s :
  Throttle.run mustRunDelay ls s →
  (size (Throttle.pending s) ≤ 1)%nat ∧
  Throttle.executed s `sublist_of` Throttle.callsOf ls ∧
  (Throttle.pending s = ∅ → last (Throttle.executed s) = last (Throttle.callsOf ls)).
Proof.
  intros Hrun. destruct (throttle_invariant mustRunDelay ls s Hrun) as (Hpending & Hexec).
  rewrite Hpending. destruct (Throttle.timer s) as [id|].
  - destruct Hexec as (before & a & _ & -> & Hsub).
    split_and!; [by rewrite size_singleton | by apply sublist_inserts_r | set_solver].
  - destruct Hexec as (_ & Hsub & Hlast).
    split_and!; [rewrite size_empty; lia | done | done].
Qed.


Lemma throttle_one_timer_last_call_wins_witness :
  (size (Throttle.pending
           (Throttle.call 300 (Throttle.call 300 Throttle.init 1000 1%Z) 1050 2%Z))
   ≤ 1)%nat ∧
  Throttle.executed (Throttle.call 300 (Throttle.call 300 Throttle.init 1000 1) 1050 2)
    `sublist_of` Throttle.callsOf ([Throttle.Call 1000 1] ++ [Throttle.Call 1050 2]) ∧
  (Throttle.pending (Throttle.call 300 (Throttle.call 300 Throttle.init 1000 1) 1050 2) = ∅ →
   last (Throttle.executed (Throttle.call 300 (Throttle.call 300 Throttle.init 1000 1) 1050 2))
   = last (Throttle.callsOf ([Throttle.Call 1000 1] ++ [Throttle.Call 1050 2]))).
Proof.
  apply (throttle_one_timer_last_call_wins 300
           ([Throttle.Call 1000 1] ++ [Throttle.Call 1050 2])).
  apply (Throttle.run_step 300 [Throttle.Call 1000 1]
           (Throttle.call 300 Throttle.init 1000 1) (Throttle.Call 1050 2)).
  - apply (Throttle.run_step 300 [] Throttle.init (Throttle.Call 1000 1));
      [apply Throttle.run_init | apply Throttle.step_call].
  - apply Throttle.step_call.
Defined.

